(** * olx-car-cover-scraper: a shallow embedding of [scraper.py]

    The scraper drives a Playwright page, collects the listing anchors
    of an OLX search page, removes duplicate links, caps the result and
    writes it out as JSON or CSV.

    Python values are modelled as follows.
    - A [str] is the list of its Unicode code points ([list N]); the
      fixed selector strings and dictionary keys of the program are
      Rocq [string] literals.
    - Calls into Playwright either return or raise: [res A].
    - An element handle is the record of what its methods answer.
    - The page and the browser are a [World] of scripted answers, and
      [scrape] runs in a small monad that threads the session state
      (the call log and the browser's life cycle). *)

From Stdlib Require Import ZArith NArith Lia Bool Ascii String.
From stdpp Require Import gmap strings list.

Open Scope Z_scope.

(** ** Python strings *)

Abbreviation str := (list N).

(** An ASCII literal of the source as a [str]. *)
Definition lit (s : string) : str :=
  Ascii.N_of_ascii <$> list_ascii_of_string s.

(** [str.isspace] on one code point (CPython's [_PyUnicode_IsWhitespace]). *)
Definition is_space (c : N) : bool :=
  (((9 <=? c) && (c <=? 13)) || ((28 <=? c) && (c <=? 32)) ||
   (c =? 133) || (c =? 160) || (c =? 5760) ||
   ((8192 <=? c) && (c <=? 8202)) || (c =? 8232) || (c =? 8233) ||
   (c =? 8239) || (c =? 8287) || (c =? 12288))%N.

(** The line boundaries of [str.splitlines] (CPython's
    [_PyUnicode_IsLinebreak]). *)
Definition is_linebreak (c : N) : bool :=
  (((10 <=? c) && (c <=? 13)) || ((28 <=? c) && (c <=? 30)) ||
   (c =? 133) || (c =? 8232) || (c =? 8233))%N.

Fixpoint lstrip (s : str) : str :=
  match s with
  | c :: t => if is_space c then lstrip t else s
  | [] => []
  end.

Definition rstrip (s : str) : str := rev (lstrip (rev s)).

(** [s.strip()] *)
Definition strip (s : str) : str := rstrip (lstrip s).

(** [s.splitlines()]: the lines of [s] without their terminators; a
    carriage return followed by a line feed is one terminator, and a
    terminator at the very end opens no further line. *)
Fixpoint splitlines (s : str) : list str :=
  match s with
  | [] => []
  | c :: t =>
      if is_linebreak c then
        [] :: match t with
              | c' :: t' =>
                  if ((c =? 13) && (c' =? 10))%N then splitlines t'
                  else splitlines t
              | [] => []
              end
      else
        match splitlines t with
        | [] => [[c]]
        | l :: ls => (c :: l) :: ls
        end
  end.

Fixpoint startswith (p s : str) : bool :=
  match p, s with
  | [], _ => true
  | a :: p', b :: s' => (a =? b)%N && startswith p' s'
  | _ :: _, [] => false
  end.

(** [needle in hay] *)
Fixpoint contains (needle hay : str) : bool :=
  startswith needle hay ||
  match hay with
  | [] => false
  | _ :: t => contains needle t
  end.

(** Truthiness of a [str], and [s or d]. *)
Definition truthy (s : str) : bool :=
  match s with [] => false | _ => true end.

Definition str_or (s d : str) : str := if truthy s then s else d.

(** [v or d] for a [v] that is a [str] or [None]. *)
Definition opt_or (v : option str) (d : str) : str :=
  match v with
  | Some s => str_or s d
  | None => d
  end.

(** ** Results of calls that may raise *)

Inductive exn : Type :=
  | PlaywrightTimeoutError
  | PlaywrightError (msg : string)
  | IndexError.

Inductive res (A : Type) : Type :=
  | Ok (a : A)
  | Raise (e : exn).
Arguments Ok {A} a.
Arguments Raise {A} e.

#[global] Instance res_ret : MRet res := fun A a => Ok a.

#[global] Instance res_bind : MBind res := fun A B f x =>
  match x with
  | Ok a => f a
  | Raise e => Raise e
  end.

(** [try: body except Exception: pass], for a body that assigns one
    variable whose value before the [try] is [None]. Every [exn] of the
    model is an instance of [Exception]. *)
Definition try_or_none {A} (body : res (option A)) : option A :=
  match body with
  | Ok v => v
  | Raise _ => None
  end.

(** [x or y] on handles: a handle is always truthy, [None] is falsy;
    [y] is evaluated only when [x] returned [None]. *)
Definition handle_or {A} (x y : res (option A)) : res (option A) :=
  match x with
  | Ok None => y
  | _ => x
  end.

(** ** Element handles *)

Set Warnings "-register-all".

Inductive ElementHandle : Type := mkElementHandle {
  inner_text : res str;
  get_attribute : string -> res (option str);
  query_selector : string -> res (option ElementHandle);
  (** [evaluate_handle(js).as_element()] *)
  evaluate_handle_as_element : string -> res (option ElementHandle)
}.

(** ** Listings *)

Record Listing : Type := mkListing {
  title : option str;
  href : str;
  price : option str;
  location : option str
}.

#[global] Instance Listing_eq_dec : EqDecision Listing.
Proof. solve_decision. Defined.

Module Extractor.

Definition is_listing_href (h : str) : bool :=
  contains (lit "/item") h || contains (lit "/i/") h ||
  contains (lit "/items/") h.

(** [text.splitlines()[0] if text else None] *)
Definition title_of (text : str) : res (option str) :=
  if truthy text then
    match splitlines text with
    | l :: _ => Ok (Some l)
    | [] => Raise IndexError
    end
  else Ok None.

(** The body of the first [try] (lines 54-56). *)
Definition price_lookup (a : ElementHandle) : res (option str) :=
  (price_el ←
     handle_or (query_selector a ".price, ._89yzn, ._2xKfz")
       (handle_or (query_selector a "span:has-text('₹')")
          (query_selector a "span:has-text('INR')"));
   match price_el with
   | Some e => t ← inner_text e; Ok (Some (strip t))
   | None => Ok None
   end).

(** The body of the second [try] (lines 61-65). *)
Definition location_lookup (a : ElementHandle) : res (option str) :=
  (parent ← evaluate_handle_as_element a "el => el.closest('li, div')";
   match parent with
   | Some p =>
       loc_el ←
         handle_or (query_selector p "._2FBdJ, .tjgMj, .-K-F")
           (query_selector p "span[data-aut-id='itemLocation']");
       match loc_el with
       | Some e => t ← inner_text e; Ok (Some (strip t))
       | None => Ok None
       end
   | None => Ok None
   end).

(** One turn of the loop over the anchors (lines 44-73): what it
    appends to [items], or the exception it raises. *)
Definition visit_anchor (a : ElementHandle) : res (list Listing) :=
  (h ← get_attribute a "href";
   let href := opt_or h [] in
   t ← inner_text a;
   let text := strip t in
   if negb (truthy href) then Ok []
   else if is_listing_href href then
     title ← title_of text;
     let price := try_or_none (price_lookup a) in
     let location := try_or_none (location_lookup a) in
     Ok [mkListing title href price location]
   else Ok []).

Fixpoint collect (anchors : list ElementHandle) (items : list Listing)
  : res (list Listing) :=
  match anchors with
  | [] => Ok items
  | a :: rest =>
      (new ← visit_anchor a; collect rest (items ++ new))
  end.

(** Lines 75-82: the loop that removes duplicates by href. *)
Fixpoint dedup_loop (items : list Listing) (seen : gset (list N))
    (unique : list Listing) : list Listing :=
  match items with
  | [] => unique
  | it :: rest =>
      let h := str_or (href it) [] in
      if decide (h ∈ seen) then dedup_loop rest seen unique
      else dedup_loop rest ({[h]} ∪ seen) (unique ++ [it])
  end.

Definition dedup (items : list Listing) : list Listing :=
  dedup_loop items ∅ [].

(** [extract_listings_from_page], given what
    [page.query_selector_all("a[href]")] answers. *)
Definition extract_listings_from_page
    (query_selector_all : string -> res (list ElementHandle))
  : res (list Listing) :=
  (anchors ← query_selector_all "a[href]";
   items ← collect anchors [];
   Ok (dedup items)).

End Extractor.

(** ** The browser session *)

(** The calls [scrape] makes, in the order it makes them. *)
Inductive event : Type :=
  | EvStart                       (* sync_playwright().__enter__ *)
  | EvLaunch (headless : bool)
  | EvNewContext
  | EvNewPage
  | EvPrint
  | EvGoto (url : str) (timeout : Z)
  | EvWaitForLoadState (state : string) (timeout : Z)
  | EvSleep
  | EvScrollBy
  | EvScrollHeight
  | EvQuerySelectorAll
  | EvClose                       (* browser.close() *)
  | EvStop.                       (* sync_playwright().__exit__ *)

#[global] Instance event_eq_dec : EqDecision event.
Proof. solve_decision. Defined.

Inductive browser_state : Type := NotLaunched | Open | Closed.

#[global] Instance browser_state_eq_dec : EqDecision browser_state.
Proof. solve_decision. Defined.

Record Session : Type := mkSession {
  log : list event;
  browser : browser_state;
  (** how many times a running browser has been shut down *)
  releases : nat
}.

Definition new_session : Session := mkSession [] NotLaunched 0.

(** What the outside world answers. The page changes as it is scrolled,
    so the answers inside the scroll loop depend on the iteration. *)
Record World : Type := mkWorld {
  start : res unit;
  launch : bool -> res unit;
  new_context : res unit;
  new_page : res unit;
  goto : str -> Z -> res unit;
  (** the wait after navigation *)
  wait_for_load_state : string -> Z -> res unit;
  (** [page.evaluate("window.scrollBy(0, document.body.scrollHeight)")] *)
  scroll_by : nat -> res unit;
  (** the wait of iteration [i] *)
  wait_for_load_state_in_loop : nat -> string -> Z -> res unit;
  (** [page.evaluate("document.body.scrollHeight")] in iteration [i] *)
  scroll_height : nat -> res Z;
  query_selector_all : string -> res (list ElementHandle);
  close : res unit
}.

Definition M (A : Type) : Type := Session -> res A * Session.

#[global] Instance M_ret : MRet M := fun A a s => (Ok a, s).

#[global] Instance M_bind : MBind M := fun A B f m s =>
  match m s with
  | (Ok a, s') => f a s'
  | (Raise e, s') => (Raise e, s')
  end.

Definition record_event (ev : event) (s : Session) : Session :=
  mkSession (log s ++ [ev]) (browser s) (releases s).

(** A call into the outside world: it is logged, then it answers. *)
Definition call {A} (ev : event) (answer : res A) : M A :=
  fun s => (answer, record_event ev s).

(** [try: m except PlaywrightTimeoutError: pass] *)
Definition except_timeout (m : M unit) : M unit := fun s =>
  match m s with
  | (Raise PlaywrightTimeoutError, s') => (Ok tt, s')
  | r => r
  end.

Definition browser_launch (w : World) (headless : bool) : M unit := fun s =>
  match launch w headless with
  | Ok tt => (Ok tt, mkSession (log s ++ [EvLaunch headless]) Open (releases s))
  | Raise e => (Raise e, record_event (EvLaunch headless) s)
  end.

(** [browser.close()]: a browser that is running is shut down. *)
Definition browser_close (w : World) : M unit := fun s =>
  match close w with
  | Ok tt =>
      (Ok tt,
       match browser s with
       | Open => mkSession (log s ++ [EvClose]) Closed (S (releases s))
       | _ => record_event EvClose s
       end)
  | Raise e => (Raise e, record_event EvClose s)
  end.

(** Leaving the [with] block stops Playwright, which shuts down every
    browser it launched that is still running. *)
Definition playwright_stop (s : Session) : Session :=
  match browser s with
  | Open => mkSession (log s ++ [EvStop]) Closed (S (releases s))
  | b => mkSession (log s ++ [EvStop]) b (releases s)
  end.

(** [with sync_playwright() as p: body] *)
Definition with_sync_playwright {A} (w : World) (body : M A) : M A :=
  fun s =>
    match start w with
    | Ok tt =>
        let (r, s') := body (record_event EvStart s) in
        (r, playwright_stop s')
    | Raise e => (Raise e, record_event EvStart s)
    end.

Module Loader.

(** Lines 100-110: [n] iterations are left, [i] have been started. *)
Fixpoint scroll_loop (w : World) (n i : nat) (previous_height : Z) : M unit :=
  match n with
  | O => mret tt
  | S n' =>
      _ ← call EvScrollBy (scroll_by w i);
      _ ← call EvSleep (Ok tt);
      _ ← except_timeout
            (call (EvWaitForLoadState "networkidle" 5000)
               (wait_for_load_state_in_loop w i "networkidle" 5000));
      current_height ← call EvScrollHeight (scroll_height w i);
      if current_height =? previous_height then mret tt
      else scroll_loop w n' (S i) current_height
  end.

(** Lines 90-110. *)
Definition load (w : World) (url : str) : M unit :=
  _ ← call EvPrint (Ok tt);
  _ ← call (EvGoto url 30000) (goto w url 30000);
  _ ← except_timeout
        (call (EvWaitForLoadState "networkidle" 15000)
           (wait_for_load_state w "networkidle" 15000));
  _ ← call EvSleep (Ok tt);
  scroll_loop w 10 0 0.

End Loader.

(** [l[:stop]] *)
Definition slice_to {A} (l : list A) (stop : Z) : list A :=
  let n := Z.of_nat (length l) in
  let stop' := if stop <? 0 then Z.max (stop + n) 0 else Z.min stop n in
  take (Z.to_nat stop') l.

(** Lines 116-117. *)
Definition cap (results : list Listing) (max_items : Z) : list Listing :=
  if Z.of_nat (length results) >? max_items then slice_to results max_items
  else results.

(** Lines 87-115, the body of the [with] block. *)
Definition scrape_body (w : World) (url : str) (headless : bool)
  : M (list Listing) :=
  _ ← browser_launch w headless;
  _ ← call EvNewContext (new_context w);
  _ ← call EvNewPage (new_page w);
  _ ← Loader.load w url;
  results ← call EvQuerySelectorAll
              (Extractor.extract_listings_from_page (query_selector_all w));
  _ ← browser_close w;
  mret results.

Definition scrape_session (w : World) (url : str) (headless : bool)
  : M (list Listing) :=
  with_sync_playwright w (scrape_body w url headless).

(** [scrape(url, max_items, headless)]: what it returns or raises, and
    the session it leaves behind. *)
Definition scrape (w : World) (url : str) (max_items : Z) (headless : bool)
  : res (list Listing) * Session :=
  match scrape_session w url headless new_session with
  | (Ok results, s) => (Ok (cap results max_items), s)
  | (Raise e, s) => (Raise e, s)
  end.

(** ** Writing the results *)

(** The dict built at lines 68-73, with its keys in insertion order. *)
Definition to_dict (r : Listing) : list (string * option str) :=
  [("title", title r); ("href", Some (href r));
   ("price", price r); ("location", location r)]%string.

(** [d.get(k)]: [None] for a missing key and for a key bound to [None]. *)
Fixpoint dict_get (d : list (string * option str)) (k : string) : option str :=
  match d with
  | [] => None
  | (k', v) :: d' => if String.eqb k' k then v else dict_get d' k
  end.

Fixpoint join (sep : str) (parts : list str) : str :=
  match parts with
  | [] => []
  | [p] => p
  | p :: ps => p ++ sep ++ join sep ps
  end.

Module Json.

Inductive value : Type :=
  | Null
  | String (s : str)
  | Array (items : list value)
  | Object (members : list (string * value)).

Definition hex_digit (n : N) : N :=
  (if n <? 10 then 48 + n else 87 + n)%N.

(** The replacement of one code point in [encode_basestring], the
    string encoder that [ensure_ascii=False] selects: the quote, the
    backslash and the control characters below U+0020 are escaped and
    nothing else is. *)
Definition escape (c : N) : str :=
  (if c =? 34 then [92; 34]
   else if c =? 92 then [92; 92]
   else if c =? 10 then [92; 110]
   else if c =? 13 then [92; 114]
   else if c =? 9 then [92; 116]
   else if c =? 8 then [92; 98]
   else if c =? 12 then [92; 102]
   else if c <? 32 then [92; 117; 48; 48; hex_digit (c / 16); hex_digit (c mod 16)]
   else [c])%N.

Definition encode_basestring (s : str) : str :=
  [34%N] ++ concat (map escape s) ++ [34%N].

(** A line feed and [level] indentation steps of [indent] spaces. *)
Definition newline_indent (indent level : nat) : str :=
  10%N :: repeat 32%N (indent * level).

(** [json.dumps(v, indent=indent, ensure_ascii=False)] at nesting depth
    [level]: with an indent the item separator is a comma and the key
    separator a colon and a space. *)
Fixpoint encode (indent : nat) (v : value) (level : nat) : str :=
  match v with
  | Null => lit "null"
  | String s => encode_basestring s
  | Array [] => lit "[]"
  | Array items =>
      lit "[" ++ newline_indent indent (S level) ++
      join (lit "," ++ newline_indent indent (S level))
        (map (fun x => encode indent x (S level)) items) ++
      newline_indent indent level ++ lit "]"
  | Object [] => lit "{}"
  | Object members =>
      lit "{" ++ newline_indent indent (S level) ++
      join (lit "," ++ newline_indent indent (S level))
        (map (fun kv =>
                match kv with
                | (k, x) =>
                    encode_basestring (lit k) ++ lit ": " ++
                    encode indent x (S level)
                end) members) ++
      newline_indent indent level ++ lit "}"
  end.

Definition of_optional (v : option str) : value :=
  match v with
  | Some s => String s
  | None => Null
  end.

Definition of_dict (d : list (string * option str)) : value :=
  Object (map (fun kv => (fst kv, of_optional (snd kv))) d).

Definition dumps (results : list Listing) (indent : nat) : str :=
  encode indent (Array (map (fun r => of_dict (to_dict r)) results)) 0.

End Json.

Module Csv.

(** The characters that make the writer quote a field under the
    default dialect: the delimiter, the quote character and the
    characters of the line terminator. *)
Definition needs_quotes (c : N) : bool :=
  ((c =? 44) || (c =? 34) || (c =? 13) || (c =? 10))%N.

(** One field as the writer emits it: quote characters are doubled,
    and the field is quoted when it holds a special character. *)
Definition field (s : str) : str :=
  let body := concat (map (fun c => if (c =? 34)%N then [34; 34]%N else [c]) s) in
  if existsb needs_quotes s then [34%N] ++ body ++ [34%N] else body.

(** [writer.writerow(fields)] *)
Definition row (fields : list str) : str :=
  join (lit ",") (map field fields) ++ [13; 10]%N.

End Csv.

(** [str.lower()], exact on every code point whose lower case lies in
    ASCII or has more than one code point: the capital letters A-Z,
    the Kelvin sign and the dotted capital I. Other cased letters are
    left alone; they are outside ASCII before and after lowering, so a
    comparison with an ASCII literal is not affected. *)
Definition lower_char (c : N) : str :=
  (if (65 <=? c) && (c <=? 90) then [c + 32]
   else if c =? 8490 then [107]
   else if c =? 304 then [105; 775]
   else [c])%N.

Definition lower (s : str) : str := concat (map lower_char s).

(** A [pathlib.Path], as far as the program looks at it. *)
Record Path : Type := mkPath {
  suffix : str
}.

Definition keys : list string := ["title"; "price"; "location"; "href"]%string.

(** [save_results(results, outpath)]: the text written to [outpath]. *)
Definition save_results (results : list Listing) (outpath : Path) : str :=
  if decide (lower (suffix outpath) = lit ".json") then
    Json.dumps results 2
  else
    Csv.row (map lit keys) ++
    concat (map (fun r =>
                   Csv.row (map (fun k => opt_or (dict_get (to_dict r) k) [])
                              keys))
              results).

(** ** The command line *)

(** What [parse_args()] returns; [output] is the [Path] that [main]
    makes of the output argument. *)
Record Args : Type := mkArgs {
  args_url : str;
  args_output : Path;
  args_max_items : Z;
  args_headless : bool
}.

(** [main()], given the parsed arguments: the text written to the
    output file, or the exception that ends the program, and the
    session left behind. *)
Definition main (args : Args) (w : World) : res str * Session :=
  match scrape w (args_url args) (args_max_items args) (args_headless args) with
  | (Ok results, s) => (Ok (save_results results (args_output args)), s)
  | (Raise e, s) => (Raise e, s)
  end.

(** * Vocabulary of the properties *)

(** ** First occurrences *)

(** The records of [items] that no earlier record shares its href
    with, in the order of [items]; [pre] is what came before [items]. *)
Definition first_occurrences_from (pre items : list Listing) : list Listing :=
  (fun p => p.2) <$>
    filter (fun p : nat * Listing => href p.2 ∉ href <$> take p.1 (pre ++ items))
      (imap (fun k it => (length pre + k, it)%nat) items).

Definition first_occurrences (items : list Listing) : list Listing :=
  first_occurrences_from [] items.

(** [d[h]] for a list of records read as a mapping from href to
    record: the first record whose href is [h]. *)
Definition first_with_href (h : str) (l : list Listing) : option Listing :=
  head (filter (fun it => href it = h) l).

(** ** Answers, logs and the scroll loop *)

Definition is_ok {A} (r : res A) : bool :=
  match r with Ok _ => true | Raise _ => false end.

(** A wait that returns or times out. *)
Definition tolerated (r : res unit) : bool :=
  match r with
  | Ok _ | Raise PlaywrightTimeoutError => true
  | Raise _ => false
  end.

Definition add_log (evs : list event) (s : Session) : Session :=
  mkSession (log s ++ evs) (browser s) (releases s).

Definition iteration_events : list event :=
  [EvScrollBy; EvSleep; EvWaitForLoadState "networkidle" 5000; EvScrollHeight].

(** Iterations started and heights measured, read off the log. *)
Definition iterations (s : Session) : nat :=
  length (filter (fun ev => ev = EvScrollBy) (log s)).

Definition measurements (s : Session) : nat :=
  length (filter (fun ev => ev = EvScrollHeight) (log s)).

(** From iteration [i] on, with [prev] the height measured last, the
    measured height changes in each of the next [k] iterations and is
    unchanged in the one after them. *)
Fixpoint stabilises_from (w : World) (prev : Z) (i k : nat) : bool :=
  match scroll_height w i with
  | Ok h =>
      match k with
      | O => h =? prev
      | S k' => negb (h =? prev) && stabilises_from w h (S i) k'
      end
  | Raise _ => false
  end.

(** The measured height stabilises after [k] scroll iterations; the
    loop starts from a previous height of 0. *)
Definition stabilises_after (w : World) (k : nat) : bool :=
  stabilises_from w 0 0 k.

(** In the iterations [i .. i + n - 1] scrolling succeeds and the wait
    returns or times out. *)
Definition scrolling_succeeds (w : World) (i n : nat) : bool :=
  forallb (fun j =>
             is_ok (scroll_by w j) &&
             tolerated (wait_for_load_state_in_loop w j "networkidle" 5000))
    (seq i n).

(** Evaluates the event counts of a concrete piece of log. *)
Ltac count_events :=
  cbn; repeat case_decide; try congruence; cbn; lia.

(** ** Worlds *)

(** A world in which every call succeeds: [heights i] is the document
    height after the scroll of iteration [i], [anchors] what the page
    holds at the end. *)
Definition quiet_world (heights : nat -> Z) (anchors : list ElementHandle) : World :=
  mkWorld (Ok tt) (fun _ => Ok tt) (Ok tt) (Ok tt) (fun _ _ => Ok tt)
    (fun _ _ => Ok tt) (fun _ => Ok tt) (fun _ _ _ => Ok tt)
    (fun i => Ok (heights i)) (fun _ => Ok anchors) (Ok tt).

(** A page that grows by one unit per scroll until it reaches [top]. *)
Definition growing_to (top : Z) (i : nat) : Z := Z.min (Z.of_nat (S i)) top.

(** A timeout of a wait turned into a normal return. *)
Definition swallow (r : res unit) : res unit :=
  match r with
  | Raise PlaywrightTimeoutError => Ok tt
  | _ => r
  end.

(** The world [w] with every timeout of a wait replaced by a normal
    return of that wait. *)
Definition without_timeouts (w : World) : World :=
  mkWorld (start w) (launch w) (new_context w) (new_page w) (goto w)
    (fun st t => swallow (wait_for_load_state w st t))
    (scroll_by w)
    (fun i st t => swallow (wait_for_load_state_in_loop w i st t))
    (scroll_height w) (query_selector_all w) (close w).

(** A world whose first navigation fails. *)
Definition unreachable_world : World :=
  mkWorld (Ok tt) (fun _ => Ok tt) (Ok tt) (Ok tt)
    (fun _ _ => Raise (PlaywrightError "net::ERR_NAME_NOT_RESOLVED"))
    (fun _ _ => Ok tt) (fun _ => Ok tt) (fun _ _ _ => Ok tt)
    (fun _ => Ok 0) (fun _ => Ok []) (Ok tt).

(** ** The calls that end a session *)





(** ** Candidates *)

(** The first line of [text] that is not empty. *)
Definition first_nonempty_line (text : str) : option str :=
  head (filter (fun l : str => l <> []) (splitlines text)).

(** Both reads that the loop makes outside a [try] succeed. *)
Definition readable (a : ElementHandle) : bool :=
  is_ok (get_attribute a "href") && is_ok (inner_text a).

(** [a.get_attribute("href") or ""] *)
Definition attr_href (a : ElementHandle) : str :=
  match get_attribute a "href" with
  | Ok h => opt_or h []
  | Raise _ => []
  end.

Definition qualifies (a : ElementHandle) : bool :=
  truthy (attr_href a) && Extractor.is_listing_href (attr_href a).

(** What the anchor [a] appends to [items]. *)
Definition records_of (a : ElementHandle) : list Listing :=
  match Extractor.visit_anchor a with
  | Ok rs => rs
  | Raise _ => []
  end.


(** The candidates of a page, before duplicates are removed. *)
Definition candidates (anchors : list ElementHandle) : list Listing :=
  concat (map records_of anchors).

(** ** Sample pages *)

(** An element that holds the text [t] and nothing else. *)
Definition leaf (t : str) : ElementHandle :=
  mkElementHandle (Ok t) (fun _ => Ok None) (fun _ => Ok None) (fun _ => Ok None).

(** An anchor with the href attribute [h] and the text [t] on which
    every lookup raises. *)
Definition bare_anchor (h : option str) (t : str) : ElementHandle :=
  mkElementHandle (Ok t) (fun _ => Ok h)
    (fun _ => Raise (PlaywrightError "Element is not attached to the DOM"))
    (fun _ => Raise (PlaywrightError "Execution context was destroyed")).

(** An anchor whose second price selector finds an element with the
    text [p], inside a block that holds no location. *)
Definition priced_anchor (h : str) (t p : str) : ElementHandle :=
  mkElementHandle (Ok t) (fun _ => Ok (Some h))
    (fun sel => if String.eqb sel "span:has-text('₹')" then Ok (Some (leaf p))
                else Ok None)
    (fun _ => Ok (Some (leaf []))).

Definition rupee : N := 8377%N.

Definition sample_anchors : list ElementHandle :=
  [ bare_anchor None (lit "Sell");
    priced_anchor (lit "/item/123") (lit "Car Cover" ++ [10%N; rupee] ++ lit "500")
      ([rupee] ++ lit "500");
    bare_anchor (Some (lit "/item/123")) (lit "Car Cover");
    bare_anchor (Some (lit "/item/456")) (lit "  Bike Cover ") ].

Definition sample_page (sel : string) : res (list ElementHandle) :=
  Ok sample_anchors.

(** Every step of [scrape] outside the extractor succeeds, the waits
    being allowed to time out. *)
Definition cooperative (w : World) (url : str) (headless : bool) : bool :=
  is_ok (start w) && is_ok (launch w headless) &&
  is_ok (new_context w) && is_ok (new_page w) &&
  is_ok (goto w url 30000) &&
  tolerated (wait_for_load_state w "networkidle" 15000) &&
  forallb (fun i =>
             is_ok (scroll_by w i) &&
             tolerated (wait_for_load_state_in_loop w i "networkidle" 5000) &&
             is_ok (scroll_height w i)) (seq 0 10) &&
  is_ok (close w).

Definition sample_world : World := quiet_world (growing_to 3) sample_anchors.

Definition sample_url : str := lit "https://www.olx.in/items/q-car-cover".

(** ** The text of the output file *)

(** The text of an optional field in JSON: [null], or the string in
    quotes with only the quote, the backslash and the control
    characters escaped. *)
Definition json_field (v : option str) : str :=
  match v with
  | None => lit "null"
  | Some s => [34%N] ++ concat (map Json.escape s) ++ [34%N]
  end.

(** One record as an object of the four keys, indented as an item of
    the top-level array. *)
Definition json_object (r : Listing) : str :=
  lit "{" ++ [10%N] ++
  lit "    " ++ [34%N] ++ lit "title" ++ [34%N] ++ lit ": " ++ json_field (title r) ++
  lit "," ++ [10%N] ++
  lit "    " ++ [34%N] ++ lit "href" ++ [34%N] ++ lit ": " ++ json_field (Some (href r)) ++
  lit "," ++ [10%N] ++
  lit "    " ++ [34%N] ++ lit "price" ++ [34%N] ++ lit ": " ++ json_field (price r) ++
  lit "," ++ [10%N] ++
  lit "    " ++ [34%N] ++ lit "location" ++ [34%N] ++ lit ": " ++ json_field (location r) ++
  [10%N] ++ lit "  }".

(** The pretty-printed array of the records. *)
Definition json_text (results : list Listing) : str :=
  match results with
  | [] => lit "[]"
  | _ =>
      lit "[" ++ [10%N] ++ lit "  " ++
      join (lit "," ++ [10%N] ++ lit "  ") (map json_object results) ++
      [10%N] ++ lit "]"
  end.

(** A missing field is the empty string. *)
Definition csv_cell (v : option str) : str :=
  match v with
  | Some s => s
  | None => []
  end.

(** One record as a line of the CSV file. *)
Definition csv_line (r : Listing) : str :=
  Csv.field (csv_cell (title r)) ++ lit "," ++
  Csv.field (csv_cell (price r)) ++ lit "," ++
  Csv.field (csv_cell (location r)) ++ lit "," ++
  Csv.field (href r) ++ [13; 10]%N.

Definition csv_text (results : list Listing) : str :=
  lit "title,price,location,href" ++ [13; 10]%N ++
  concat (map csv_line results).

Definition sample_results : list Listing :=
  [ mkListing (Some (lit "Car, Cover")) (lit "/item/1")
      (Some ([rupee] ++ lit "500")) None;
    mkListing None (lit "/item/2") None (Some (lit "Pune" ++ [10%N] ++ lit "MH")) ].

(** ** Further vocabulary *)

(** The measured height differs from the one before it in each of the
    [n] iterations from [i] on; [prev] is the height measured last. *)
Fixpoint changes_from (w : World) (prev : Z) (i n : nat) : bool :=
  match n with
  | O => true
  | S n' =>
      match scroll_height w i with
      | Ok h => negb (h =? prev) && changes_from w h (S i) n'
      | Raise _ => false
      end
  end.

(** The exception that iteration [i] of the scroll loop raises before
    it compares the heights, if it raises one. *)
Definition iteration_error (w : World) (i : nat) : option exn :=
  match scroll_by w i with
  | Raise e => Some e
  | Ok _ =>
      match wait_for_load_state_in_loop w i "networkidle" 5000 with
      | Raise PlaywrightTimeoutError | Ok _ =>
          match scroll_height w i with
          | Raise e => Some e
          | Ok _ => None
          end
      | Raise e => Some e
      end
  end.

(** Every step of [scrape] up to the scroll loop succeeds, the wait
    being allowed to time out. *)
Definition reaches_loop (w : World) (url : str) (headless : bool) : bool :=
  is_ok (start w) && is_ok (launch w headless) &&
  is_ok (new_context w) && is_ok (new_page w) &&
  is_ok (goto w url 30000) &&
  tolerated (wait_for_load_state w "networkidle" 15000).

(** The session in which [Loader.load] starts. *)
Definition loading_session (headless : bool) : Session :=
  mkSession [EvStart; EvLaunch headless; EvNewContext; EvNewPage] Open 0.

(** The events of a run up to the scroll loop. *)
Definition prologue_events (url : str) (headless : bool) : list event :=
  [EvStart; EvLaunch headless; EvNewContext; EvNewPage; EvPrint;
   EvGoto url 30000; EvWaitForLoadState "networkidle" 15000; EvSleep].

(** The number of line feeds in a text. *)
Definition line_feeds (s : str) : nat :=
  length (filter (fun c => c = 10%N) s).

(** A record with its missing fields replaced by empty strings. *)
Definition fill_blanks (r : Listing) : Listing :=
  mkListing (Some (csv_cell (title r))) (href r)
    (Some (csv_cell (price r))) (Some (csv_cell (location r))).

(** The sixteen spellings of the extension [.json]. *)
Definition is_json_spelling (s : str) : Prop :=
  exists j s' o n : N,
    s = [46%N; j; s'; o; n] /\
    (j = 74%N \/ j = 106%N) /\ (s' = 83%N \/ s' = 115%N) /\
    (o = 79%N \/ o = 111%N) /\ (n = 78%N \/ n = 110%N).

(** An anchor without href whose text cannot be read. *)
Definition detached_anchor : ElementHandle :=
  mkElementHandle (Raise (PlaywrightError "Element is not attached to the DOM"))
    (fun _ => Ok None) (fun _ => Ok None) (fun _ => Ok None).

(** An anchor whose first price selector raises and whose second one
    would find the price [p]. *)
Definition flaky_anchor (h : str) (t p : str) : ElementHandle :=
  mkElementHandle (Ok t) (fun _ => Ok (Some h))
    (fun sel =>
       if String.eqb sel ".price, ._89yzn, ._2xKfz"
       then Raise (PlaywrightError "Execution context was destroyed")
       else Ok (Some (leaf p)))
    (fun _ => Ok None).

(** [w] with another answer of [browser.close()]. *)
Definition with_close (w : World) (r : res unit) : World :=
  mkWorld (start w) (launch w) (new_context w) (new_page w) (goto w)
    (wait_for_load_state w) (scroll_by w) (wait_for_load_state_in_loop w)
    (scroll_height w) (query_selector_all w) r.

(** [w] with another answer of the launch. *)
Definition with_launch (w : World) (r : res unit) : World :=
  mkWorld (start w) (fun _ => r) (new_context w) (new_page w) (goto w)
    (wait_for_load_state w) (scroll_by w) (wait_for_load_state_in_loop w)
    (scroll_height w) (query_selector_all w) (close w).

(** [w] with another answer of the wait after the navigation. *)
Definition with_first_wait (w : World) (r : res unit) : World :=
  mkWorld (start w) (launch w) (new_context w) (new_page w) (goto w)
    (fun _ _ => r) (scroll_by w) (wait_for_load_state_in_loop w)
    (scroll_height w) (query_selector_all w) (close w).

(** [w] in which the height cannot be measured in iteration [i]. *)
Definition with_height_error (w : World) (i : nat) (e : exn) : World :=
  mkWorld (start w) (launch w) (new_context w) (new_page w) (goto w)
    (wait_for_load_state w) (scroll_by w) (wait_for_load_state_in_loop w)
    (fun j => if Nat.eqb j i then Raise e else scroll_height w j)
    (query_selector_all w) (close w).

(** The arguments that [parse_args] returns for an empty command
    line. *)
Definition default_args : Args :=
  mkArgs (lit "https://www.olx.in/items/q-car-cover") (mkPath (lit ".csv")) 200 false.

(** * Properties *)

(** ** Deduplication *)

Section Dedup.

Import Extractor.

Lemma str_or_empty (s : str) : str_or s [] = s.
Proof. by destruct s. Qed.

Lemma seen_nothing (h : str) : h ∈ (∅ : gset (list N)) <-> h ∈ href <$> [].
Proof. cbn. rewrite elem_of_nil. set_solver. Qed.

Lemma first_occurrences_from_nil pre : first_occurrences_from pre [] = [].
Proof. reflexivity. Qed.

Lemma first_occurrences_from_cons pre it rest :
  first_occurrences_from pre (it :: rest) =
  (if decide (href it ∈ href <$> pre) then [] else [it]) ++
  first_occurrences_from (pre ++ [it]) rest.
Proof.
  unfold first_occurrences_from. cbn [imap].
  rewrite filter_cons. cbn [fst snd].
  replace (length pre + 0)%nat with (length pre) by lia.
  rewrite take_app_length.
  assert (Htl :
    filter (fun p : nat * Listing => href p.2 ∉ href <$> take p.1 (pre ++ it :: rest))
      (imap ((fun k it0 => (length pre + k, it0)%nat) ∘ S) rest) =
    filter (fun p : nat * Listing => href p.2 ∉ href <$> take p.1 ((pre ++ [it]) ++ rest))
      (imap (fun k it0 => (length (pre ++ [it]) + k, it0)%nat) rest)).
  { rewrite <- (assoc_L (++) pre [it] rest). cbn [app].
    f_equal. apply imap_ext. intros k x _. cbn.
    rewrite length_app. cbn. f_equal. lia. }
  rewrite Htl.
  destruct (decide (href it ∈ href <$> pre)) as [Hin|Hnin].
  - rewrite decide_False by (intros Hn; by apply Hn). reflexivity.
  - rewrite decide_True by done. reflexivity.
Qed.

Lemma dedup_loop_spec items : forall pre seen unique,
  (forall h, h ∈ seen <-> h ∈ href <$> pre) ->
  dedup_loop items seen unique = unique ++ first_occurrences_from pre items.
Proof.
  induction items as [|it rest IH]; intros pre seen unique Hseen.
  - cbn. by rewrite app_nil_r.
  - cbn [dedup_loop]. rewrite str_or_empty, first_occurrences_from_cons.
    destruct (decide (href it ∈ seen)) as [Hin|Hnin].
    + rewrite decide_True by (by apply Hseen).
      apply IH. intros h. rewrite fmap_app, elem_of_app. cbn.
      rewrite list_elem_of_singleton. split.
      * intros H. left. by apply Hseen.
      * intros [H| ->]; [by apply Hseen | done].
    + rewrite decide_False by (intros H; by apply Hnin, Hseen).
      rewrite (IH (pre ++ [it])).
      * by rewrite <- app_assoc.
      * intros h. rewrite fmap_app, elem_of_app, elem_of_union, elem_of_singleton. cbn.
        rewrite list_elem_of_singleton, Hseen. tauto.
Qed.

Lemma dedup_first_occurrences items : dedup items = first_occurrences items.
Proof.
  unfold dedup, first_occurrences.
  rewrite (dedup_loop_spec items [] ∅ []); [done|].
  apply seen_nothing.
Qed.

Lemma dedup_loop_inv items : forall seen unique,
  (forall h, h ∈ seen <-> h ∈ href <$> unique) ->
  NoDup (href <$> unique) ->
  NoDup (href <$> dedup_loop items seen unique) /\
  (forall h, h ∈ href <$> dedup_loop items seen unique <->
             h ∈ href <$> unique \/ h ∈ href <$> items).
Proof.
  induction items as [|it rest IH]; intros seen unique Hseen Hnd.
  - cbn. split; [done|]. intros h. rewrite elem_of_nil. tauto.
  - cbn [dedup_loop]. rewrite str_or_empty.
    destruct (decide (href it ∈ seen)) as [Hin|Hnin].
    + destruct (IH seen unique Hseen Hnd) as [H1 H2]. split; [done|].
      intros h. rewrite H2. cbn. rewrite elem_of_cons.
      split; [tauto|]. intros [H|[->|H]]; [tauto| |tauto].
      left. by apply Hseen.
    + destruct (IH ({[href it]} ∪ seen) (unique ++ [it])) as [H1 H2].
      * intros h. rewrite fmap_app, elem_of_app, elem_of_union, elem_of_singleton.
        cbn. rewrite list_elem_of_singleton, Hseen. tauto.
      * rewrite fmap_app. cbn. apply NoDup_app. split; [done|]. split.
        -- intros h Hh. rewrite list_elem_of_singleton. intros ->.
           by apply Hnin, Hseen.
        -- apply NoDup_singleton.
      * split; [done|]. intros h. rewrite H2, fmap_app, elem_of_app. cbn.
        rewrite list_elem_of_singleton, elem_of_cons. tauto.
Qed.

End Dedup.

Section DedupOrder.

Import Extractor.

Lemma first_with_href_app h l1 l2 :
  h ∈ href <$> l1 ->
  first_with_href h (l1 ++ l2) = first_with_href h l1.
Proof.
  unfold first_with_href. intros Hin. rewrite filter_app.
  apply list_elem_of_fmap in Hin as (it & -> & Hit).
  assert (Hf : it ∈ filter (fun it0 => href it0 = href it) l1)
    by (by apply list_elem_of_filter).
  destruct (filter _ l1); [by apply elem_of_nil in Hf | done].
Qed.

Lemma first_with_href_skip h l1 it l2 :
  h ∈ href <$> l1 \/ href it <> h ->
  first_with_href h (l1 ++ it :: l2) = first_with_href h (l1 ++ l2).
Proof.
  intros [Hin|Hne].
  - by rewrite !first_with_href_app.
  - unfold first_with_href. rewrite !filter_app, filter_cons.
    by rewrite decide_False.
Qed.

Lemma dedup_loop_first h items : forall seen unique,
  (forall h', h' ∈ seen <-> h' ∈ href <$> unique) ->
  first_with_href h (dedup_loop items seen unique) =
  first_with_href h (unique ++ items).
Proof.
  induction items as [|it rest IH]; intros seen unique Hseen.
  - cbn. by rewrite app_nil_r.
  - cbn [dedup_loop]. rewrite str_or_empty.
    destruct (decide (href it ∈ seen)) as [Hin|Hnin].
    + rewrite (IH _ _ Hseen). symmetry. apply first_with_href_skip.
      destruct (decide (href it = h)) as [<-|Hne]; [left|by right].
      by apply Hseen.
    + rewrite IH.
      * by rewrite <- app_assoc.
      * intros h'. rewrite fmap_app, elem_of_app, elem_of_union, elem_of_singleton.
        cbn. rewrite list_elem_of_singleton, Hseen. tauto.
Qed.

Lemma dedup_loop_sublist items : forall seen unique,
  dedup_loop items seen unique `sublist_of` unique ++ items.
Proof.
  induction items as [|it rest IH]; intros seen unique.
  - cbn. by rewrite app_nil_r.
  - cbn [dedup_loop].
    destruct (decide (str_or (href it) [] ∈ seen)).
    + etrans; [apply IH|]. apply sublist_app; [done|]. by apply sublist_cons.
    + etrans; [apply IH|]. by rewrite <- app_assoc.
Qed.

(** C1. The deduplication step of the extractor keeps, for every
    distinct href of the candidates, exactly one record, namely the
    first candidate that carries it; the output lists these first
    occurrences in the order in which they were discovered, and no two
    records of the output share an href. *)
Theorem dedup_first_occurrence_wins (items : list Listing) :
  dedup items = first_occurrences items /\
  NoDup (href <$> dedup items) /\
  (forall h, h ∈ href <$> dedup items <-> h ∈ href <$> items) /\
  (forall h, first_with_href h (dedup items) = first_with_href h items) /\
  dedup items `sublist_of` items.
Proof.
  split; [apply dedup_first_occurrences|].
  destruct (dedup_loop_inv items ∅ []) as [Hnd Hmem].
  { apply seen_nothing. }
  { cbn. constructor. }
  split; [exact Hnd|]. split.
  { intros h. unfold dedup. rewrite Hmem. cbn. rewrite elem_of_nil. tauto. }
  split.
  { intros h. unfold dedup. rewrite (dedup_loop_first h items ∅ []); [done|].
    apply seen_nothing. }
  apply (dedup_loop_sublist items ∅ []).
Qed.

End DedupOrder.

(** ** The session monad *)

Lemma record_event_add_log ev s : record_event ev s = add_log [ev] s.
Proof. reflexivity. Qed.

Lemma add_log_add_log e1 e2 s : add_log e2 (add_log e1 s) = add_log (e1 ++ e2) s.
Proof. unfold add_log. cbn. by rewrite app_assoc. Qed.

Lemma add_log_nil s : add_log [] s = s.
Proof. destruct s. unfold add_log. cbn. by rewrite app_nil_r. Qed.

Lemma bind_call {A B} ev (r : res A) (f : A -> M B) s :
  (call ev r ≫= f) s =
  match r with
  | Ok a => f a (add_log [ev] s)
  | Raise e => (Raise e, add_log [ev] s)
  end.
Proof. unfold mbind, M_bind, call. by destruct r. Qed.

Lemma bind_except_timeout_call {B} ev (r : res unit) (f : unit -> M B) s :
  tolerated r = true ->
  (except_timeout (call ev r) ≫= f) s = f tt (add_log [ev] s).
Proof.
  unfold mbind, M_bind, except_timeout, call. intros Hr.
  destruct r as [[]|[]]; done.
Qed.

Lemma bind_except_timeout_call_raise {B} ev (r : res unit) (f : unit -> M B) s :
  tolerated r = false ->
  exists e, r = Raise e /\ e <> PlaywrightTimeoutError /\
    (except_timeout (call ev r) ≫= f) s = (Raise e, add_log [ev] s).
Proof.
  unfold mbind, M_bind, except_timeout, call. intros Hr.
  destruct r as [[]|e]; [done|]. exists e. by destruct e.
Qed.

Lemma bind_raise {A B} (m : M A) (f : A -> M B) s e s' :
  m s = (Raise e, s') -> (m ≫= f) s = (Raise e, s').
Proof. intros H. unfold mbind, M_bind. by rewrite H. Qed.

Lemma bind_ok {A B} (m : M A) (f : A -> M B) s a s' :
  m s = (Ok a, s') -> (m ≫= f) s = f a s'.
Proof. intros H. unfold mbind, M_bind. by rewrite H. Qed.

Lemma bind_browser_launch {B} w headless (f : unit -> M B) s :
  launch w headless = Ok tt ->
  (browser_launch w headless ≫= f) s =
  f tt (mkSession (log s ++ [EvLaunch headless]) Open (releases s)).
Proof. intros H. unfold mbind, M_bind, browser_launch. by rewrite H. Qed.

(** ** The scroll loop *)

Lemma scroll_loop_converges w : forall k n i prev s,
  (k < n)%nat ->
  scrolling_succeeds w i (S k) = true ->
  stabilises_from w prev i k = true ->
  Loader.scroll_loop w n i prev s =
  (Ok tt, add_log (concat (replicate (S k) iteration_events)) s).
Proof.
  induction k as [|k IH]; intros n i prev s Hn Hscroll Hstab;
    (destruct n as [|n]; [lia|]);
    cbn [scrolling_succeeds forallb seq] in Hscroll;
    apply andb_prop in Hscroll as [Hi Hrest];
    apply andb_prop in Hi as [Hsb Hw];
    cbn [stabilises_from] in Hstab;
    destruct (scroll_height w i) as [h|] eqn:Hh; try discriminate;
    destruct (scroll_by w i) as [[]|] eqn:Hs; try discriminate;
    cbn [Loader.scroll_loop];
    rewrite bind_call, Hs, bind_call, (bind_except_timeout_call _ _ _ _ Hw), bind_call, Hh,
      !add_log_add_log; cbn [app].
  - rewrite Hstab. reflexivity.
  - apply andb_prop in Hstab as [Hne Hstab].
    apply negb_true_iff in Hne. rewrite Hne.
    rewrite (IH n (S i) h); [|lia|exact Hrest|exact Hstab].
    rewrite add_log_add_log. reflexivity.
Qed.

Lemma scroll_loop_bound w : forall n i prev s,
  (iterations (Loader.scroll_loop w n i prev s).2 <= iterations s + n)%nat /\
  (measurements (Loader.scroll_loop w n i prev s).2 <= measurements s + n)%nat.
Proof.
  assert (Hit : forall evs s, iterations (add_log evs s) =
            (iterations s + length (filter (fun ev => ev = EvScrollBy) evs))%nat).
  { intros. unfold iterations, add_log. cbn. by rewrite filter_app, length_app. }
  assert (Hme : forall evs s, measurements (add_log evs s) =
            (measurements s + length (filter (fun ev => ev = EvScrollHeight) evs))%nat).
  { intros. unfold measurements, add_log. cbn. by rewrite filter_app, length_app. }
  induction n as [|n IH]; intros i prev s.
  - cbn. lia.
  - cbn [Loader.scroll_loop]. rewrite bind_call.
    destruct (scroll_by w i) as [[]|e]; [|cbn [snd]; rewrite Hit, Hme; count_events].
    rewrite bind_call.
    destruct (tolerated (wait_for_load_state_in_loop w i "networkidle" 5000)) eqn:Hw.
    + rewrite (bind_except_timeout_call _ _ _ _ Hw), bind_call, !add_log_add_log.
      cbn [app].
      destruct (scroll_height w i) as [h|e]; [|cbn [snd]; rewrite Hit, Hme; count_events].
      destruct (h =? prev).
      * cbn [snd mret M_ret]. rewrite Hit, Hme. count_events.
      * specialize (IH (S i) h
          (add_log [EvScrollBy; EvSleep; EvWaitForLoadState "networkidle" 5000;
                    EvScrollHeight] s)).
        rewrite Hit, Hme in IH. revert IH. count_events.
    + destruct (bind_except_timeout_call_raise
                  (EvWaitForLoadState "networkidle" 5000) _
                  (fun _ : unit =>
                     current_height ← call EvScrollHeight (scroll_height w i);
                     if current_height =? prev then mret tt
                     else Loader.scroll_loop w n (S i) current_height)
                  (add_log [EvSleep] (add_log [EvScrollBy] s)) Hw)
        as (e & _ & _ & ->).
      cbn [snd]. rewrite !Hit, !Hme. count_events.
Qed.

(** C5, as amended. The scroll loop of [scrape] (ten iterations, started
    with a previous height of 0) never starts more than 10 iterations.
    When the measured height changes in each of the first [k] iterations
    and is unchanged in the next one, with [k < 10], the loop stops
    normally after exactly [k + 1] iterations and [k + 1] height
    measurements; this is short of the ten iterations exactly when
    [k < 9]. *)
Theorem scroll_loop_stops_on_convergence (w : World) (s : Session) (k : nat) :
  (k < 10)%nat ->
  scrolling_succeeds w 0 (S k) = true ->
  stabilises_after w k = true ->
  let r := Loader.scroll_loop w 10 0 0 s in
  r.1 = Ok tt /\
  measurements r.2 = (measurements s + (k + 1))%nat /\
  iterations r.2 = (iterations s + (k + 1))%nat /\
  ((k < 9)%nat <-> (iterations r.2 < iterations s + 10)%nat) /\
  (forall w' s',
     (iterations (Loader.scroll_loop w' 10 0 0 s').2 <= iterations s' + 10)%nat).
Proof.
  intros Hk Hscroll Hstab r. subst r.
  assert (Hbound : forall w' s',
     (iterations (Loader.scroll_loop w' 10 0 0 s').2 <= iterations s' + 10)%nat)
    by (intros; apply scroll_loop_bound).
  rewrite (scroll_loop_converges w k 10 0 0 s Hk Hscroll Hstab).
  cbn [fst snd].
  assert (Hm : measurements (add_log (concat (replicate (S k) iteration_events)) s)
               = (measurements s + (k + 1))%nat).
  { unfold measurements, add_log. cbn [log]. rewrite filter_app, length_app.
    f_equal. clear. induction k as [|k IH]; [reflexivity|].
    change (replicate (S (S k)) iteration_events)
      with (iteration_events :: replicate (S k) iteration_events).
    rewrite concat_cons, filter_app, length_app, IH. reflexivity. }
  assert (Hi : iterations (add_log (concat (replicate (S k) iteration_events)) s)
               = (iterations s + (k + 1))%nat).
  { unfold iterations, add_log. cbn [log]. rewrite filter_app, length_app.
    f_equal. clear. induction k as [|k IH]; [reflexivity|].
    change (replicate (S (S k)) iteration_events)
      with (iteration_events :: replicate (S k) iteration_events).
    rewrite concat_cons, filter_app, length_app, IH. reflexivity. }
  rewrite Hm, Hi. repeat split; try lia. exact Hbound.
Qed.

Lemma scroll_loop_stops_on_convergence_witness :
  let r := Loader.scroll_loop (quiet_world (growing_to 3) []) 10 0 0 new_session in
  r.1 = Ok tt /\
  measurements r.2 = (measurements new_session + (3 + 1))%nat /\
  iterations r.2 = (iterations new_session + (3 + 1))%nat /\
  ((3 < 9)%nat <-> (iterations r.2 < iterations new_session + 10)%nat) /\
  (forall w' s',
     (iterations (Loader.scroll_loop w' 10 0 0 s').2 <= iterations s' + 10)%nat).
Proof.
  apply (scroll_loop_stops_on_convergence (quiet_world (growing_to 3) []) new_session 3).
  - lia.
  - reflexivity.
  - reflexivity.
Defined.

(** C5 as stated fails for [k = 9]: the height changes in nine
    iterations and is found unchanged in the tenth, so the loop makes
    its ten measurements by running all ten iterations. *)
Lemma scroll_loop_nine_changes_runs_ten :
  let w := quiet_world (growing_to 9) [] in
  let r := Loader.scroll_loop w 10 0 0 new_session in
  (9 < 10)%nat /\
  stabilises_after w 9 = true /\
  measurements r.2 = 10%nat /\
  ~ (iterations r.2 < 10)%nat.
Proof.
  cbn zeta. split; [lia|]. split; [reflexivity|].
  rewrite (scroll_loop_converges _ 9 10 0 0 new_session);
    [|lia|reflexivity|reflexivity].
  split; [reflexivity|]. vm_compute. lia.
Qed.

(** ** Failures of navigation and of the waits *)

Lemma except_timeout_swallow ev r s :
  except_timeout (call ev (swallow r)) s = except_timeout (call ev r) s.
Proof. unfold except_timeout, call. by destruct r as [[]|[]]. Qed.

Lemma bind_ext {A B} (m m' : M A) (f f' : A -> M B) s :
  m s = m' s -> (forall a s', f a s' = f' a s') -> (m ≫= f) s = (m' ≫= f') s.
Proof.
  intros Hm Hf. unfold mbind, M_bind. rewrite Hm.
  destruct (m' s) as [[a|e] s']; [apply Hf|done].
Qed.

Lemma scroll_loop_without_timeouts w : forall n i prev s,
  Loader.scroll_loop (without_timeouts w) n i prev s = Loader.scroll_loop w n i prev s.
Proof.
  induction n as [|n IH]; intros i prev s; [reflexivity|].
  cbn [Loader.scroll_loop].
  apply bind_ext; [reflexivity|]. intros _ s1.
  apply bind_ext; [reflexivity|]. intros _ s2.
  apply bind_ext; [apply except_timeout_swallow|]. intros _ s3.
  apply bind_ext; [reflexivity|]. intros h s4.
  destruct (h =? prev); [reflexivity|apply IH].
Qed.

Lemma load_without_timeouts w url s :
  Loader.load (without_timeouts w) url s = Loader.load w url s.
Proof.
  unfold Loader.load.
  apply bind_ext; [reflexivity|]. intros _ s1.
  apply bind_ext; [reflexivity|]. intros _ s2.
  apply bind_ext; [apply except_timeout_swallow|]. intros _ s3.
  apply bind_ext; [reflexivity|]. intros _ s4.
  apply scroll_loop_without_timeouts.
Qed.

Lemma scrape_body_without_timeouts w url headless s :
  scrape_body (without_timeouts w) url headless s = scrape_body w url headless s.
Proof.
  unfold scrape_body.
  apply bind_ext; [reflexivity|]. intros _ s1.
  apply bind_ext; [reflexivity|]. intros _ s2.
  apply bind_ext; [reflexivity|]. intros _ s3.
  apply bind_ext; [apply load_without_timeouts|]. intros _ s4.
  reflexivity.
Qed.

Lemma scrape_without_timeouts w url max_items headless :
  scrape (without_timeouts w) url max_items headless = scrape w url max_items headless.
Proof.
  unfold scrape, scrape_session, with_sync_playwright.
  cbn [start without_timeouts].
  destruct (start w) as [[]|e]; [|reflexivity].
  by rewrite scrape_body_without_timeouts.
Qed.

(** C4. When the first navigation (bounded at 30 seconds) fails,
    [scrape] raises that very error: the navigation is tried once and
    nothing but the teardown follows it. A timeout of a wait, be it the
    15-second wait after the navigation or a 5-second wait inside the
    loop, changes nothing: [scrape] returns, raises and logs exactly
    what it does when that wait returns normally. *)
Theorem navigation_failure_is_fatal_wait_timeouts_are_not
    (w : World) (url : str) (max_items : Z) (headless : bool) (e : exn) :
  start w = Ok tt ->
  launch w headless = Ok tt ->
  new_context w = Ok tt ->
  new_page w = Ok tt ->
  goto w url 30000 = Raise e ->
  scrape w url max_items headless =
    (Raise e,
     mkSession [EvStart; EvLaunch headless; EvNewContext; EvNewPage; EvPrint;
                EvGoto url 30000; EvStop] Closed 1) /\
  (forall w', scrape (without_timeouts w') url max_items headless =
              scrape w' url max_items headless).
Proof.
  intros Hstart Hlaunch Hctx Hpage Hgoto. split.
  - assert (Hload : forall s,
      Loader.load w url s = (Raise e, add_log [EvPrint; EvGoto url 30000] s)).
    { intros s. unfold Loader.load.
      by rewrite bind_call, bind_call, Hgoto, add_log_add_log. }
    unfold scrape, scrape_session, with_sync_playwright, scrape_body.
    rewrite Hstart, (bind_browser_launch _ _ _ _ Hlaunch).
    rewrite bind_call, Hctx, bind_call, Hpage.
    rewrite (bind_raise _ _ _ _ _ (Hload _)).
    reflexivity.
  - intros w'. apply scrape_without_timeouts.
Qed.

Lemma navigation_failure_is_fatal_witness :
  scrape unreachable_world (lit "https://www.olx.in/items/q-car-cover") 200 true =
    (Raise (PlaywrightError "net::ERR_NAME_NOT_RESOLVED"),
     mkSession [EvStart; EvLaunch true; EvNewContext; EvNewPage; EvPrint;
                EvGoto (lit "https://www.olx.in/items/q-car-cover") 30000; EvStop]
       Closed 1) /\
  (forall w', scrape (without_timeouts w') (lit "https://www.olx.in/items/q-car-cover") 200 true =
              scrape w' (lit "https://www.olx.in/items/q-car-cover") 200 true).
Proof.
  apply (navigation_failure_is_fatal_wait_timeouts_are_not unreachable_world);
    reflexivity.
Defined.

(** ** The life of the browser *)




















(** ** Titles *)

Lemma is_linebreak_is_space c : is_linebreak c = true -> is_space c = true.
Proof.
  unfold is_linebreak, is_space.
  rewrite !orb_true_iff, !andb_true_iff, !N.leb_le, !N.eqb_eq. lia.
Qed.

Lemma lstrip_head s :
  lstrip s = [] \/ exists c r, lstrip s = c :: r /\ is_space c = false.
Proof.
  induction s as [|c s IH]; [by left|]. cbn.
  destruct (is_space c) eqn:Hc; [exact IH|]. right. by exists c, s.
Qed.

Lemma lstrip_snoc_nonspace c : forall v,
  is_space c = false -> exists v', lstrip (v ++ [c]) = v' ++ [c].
Proof.
  intros v Hc. induction v as [|d v IH]; cbn.
  - rewrite Hc. by exists [].
  - destruct (is_space d); [exact IH|]. by exists (d :: v).
Qed.

Lemma strip_head s :
  strip s = [] \/ exists c r, strip s = c :: r /\ is_space c = false.
Proof.
  unfold strip, rstrip.
  destruct (lstrip_head s) as [->|(c & r & -> & Hc)]; [by left|].
  right. cbn [rev].
  destruct (lstrip_snoc_nonspace c (rev r) Hc) as [v' Hv].
  exists c, (rev v'). rewrite Hv, rev_app_distr. by cbn.
Qed.

Lemma splitlines_head c r :
  is_linebreak c = false ->
  exists l ls, splitlines (c :: r) = (c :: l) :: ls.
Proof.
  intros Hc. cbn [splitlines]. rewrite Hc.
  destruct (splitlines r) as [|l ls]; [by exists [], []|by exists l, ls].
Qed.

(** On a stripped text the first line is never empty, so [title_of]
    never raises and picks the first non-empty line. *)
Lemma title_of_strip t :
  Extractor.title_of (strip t) = Ok (first_nonempty_line (strip t)) /\
  (strip t = [] -> first_nonempty_line (strip t) = None) /\
  (strip t <> [] ->
   exists l, first_nonempty_line (strip t) = Some l /\ l <> [] /\
             head (splitlines (strip t)) = Some l).
Proof.
  unfold Extractor.title_of, first_nonempty_line.
  destruct (strip_head t) as [->|(c & r & -> & Hc)].
  - cbn. split; [done|]. split; [done|]. intros H. by destruct H.
  - assert (Hlb : is_linebreak c = false).
    { destruct (is_linebreak c) eqn:E; [|done].
      apply is_linebreak_is_space in E. congruence. }
    destruct (splitlines_head c r Hlb) as (l & ls & ->).
    cbn [truthy]. rewrite filter_cons, decide_True by done. cbn.
    split; [done|]. split; [done|]. intros _. by exists (c :: l).
Qed.

(** ** The candidates of a page *)

Section Candidates.

Import Extractor.


Lemma visit_anchor_readable a h t :
  get_attribute a "href" = Ok h ->
  inner_text a = Ok t ->
  visit_anchor a =
  Ok (if qualifies a
      then [mkListing (first_nonempty_line (strip t)) (attr_href a)
              (try_or_none (price_lookup a)) (try_or_none (location_lookup a))]
      else []).
Proof.
  intros Hh Ht. unfold visit_anchor, qualifies, attr_href. rewrite Hh, Ht.
  cbn [mbind res_bind].
  destruct (truthy (opt_or h [])); cbn [negb andb]; [|done].
  destruct (is_listing_href (opt_or h [])); [|done].
  destruct (title_of_strip t) as [-> _]. reflexivity.
Qed.

Lemma readable_inv a :
  readable a = true ->
  exists h t, get_attribute a "href" = Ok h /\ inner_text a = Ok t.
Proof.
  unfold readable. intros H. apply andb_prop in H as [H1 H2].
  destruct (get_attribute a "href") as [h|]; [|done].
  destruct (inner_text a) as [t|]; [|done]. by exists h, t.
Qed.

Lemma visit_anchor_ok_readable a rs :
  visit_anchor a = Ok rs -> readable a = true.
Proof.
  unfold visit_anchor, readable.
  destruct (get_attribute a "href") as [h|]; [|done].
  by destruct (inner_text a) as [t|].
Qed.

Lemma visit_anchor_records a :
  readable a = true -> visit_anchor a = Ok (records_of a).
Proof.
  intros H. destruct (readable_inv a H) as (h & t & Hh & Ht).
  unfold records_of. by rewrite (visit_anchor_readable a h t Hh Ht).
Qed.

Lemma collect_readable anchors : forall items,
  forallb readable anchors = true ->
  collect anchors items = Ok (items ++ concat (map records_of anchors)).
Proof.
  induction anchors as [|a rest IH]; intros items H; cbn.
  - by rewrite app_nil_r.
  - cbn in H. apply andb_prop in H as [Ha Hrest].
    rewrite (visit_anchor_records a Ha). cbn [mbind res_bind].
    rewrite (IH _ Hrest). by rewrite app_assoc.
Qed.

Lemma collect_inv anchors : forall items out,
  collect anchors items = Ok out -> forallb readable anchors = true.
Proof.
  induction anchors as [|a rest IH]; intros items out H; [done|].
  cbn in H. destruct (visit_anchor a) as [rs|] eqn:Ha; [|done].
  cbn. rewrite (visit_anchor_ok_readable a rs Ha). cbn in H. by eapply IH.
Qed.

Lemma extract_readable qsa anchors :
  qsa "a[href]"%string = Ok anchors ->
  forallb readable anchors = true ->
  extract_listings_from_page qsa = Ok (dedup (candidates anchors)).
Proof.
  intros Hq Hr. unfold extract_listings_from_page. rewrite Hq.
  cbn [mbind res_bind]. by rewrite (collect_readable anchors [] Hr).
Qed.

Lemma extract_inv qsa out :
  extract_listings_from_page qsa = Ok out ->
  exists anchors, qsa "a[href]"%string = Ok anchors /\
    forallb readable anchors = true /\ out = dedup (candidates anchors).
Proof.
  unfold extract_listings_from_page. intros H.
  destruct (qsa "a[href]"%string) as [anchors|]; [|done].
  cbn [mbind res_bind] in H.
  destruct (collect anchors []) as [items|] eqn:Hc; [|done].
  assert (Hr := collect_inv _ _ _ Hc).
  rewrite (collect_readable anchors [] Hr) in Hc.
  exists anchors. split; [done|]. split; [done|].
  injection Hc as <-. cbn [mbind res_bind] in H. by injection H as <-.
Qed.

Lemma records_of_spec a r :
  r ∈ records_of a ->
  qualifies a = true /\ href r = attr_href a /\
  price r = try_or_none (price_lookup a) /\
  location r = try_or_none (location_lookup a) /\
  exists t, inner_text a = Ok t /\ title r = first_nonempty_line (strip t).
Proof.
  unfold records_of. intros Hr.
  destruct (visit_anchor a) as [rs|] eqn:Hv; [|by apply elem_of_nil in Hr].
  destruct (readable_inv a (visit_anchor_ok_readable a rs Hv)) as (h & t & Hh & Ht).
  rewrite (visit_anchor_readable a h t Hh Ht) in Hv.
  destruct (qualifies a); injection Hv as <-; [|by apply elem_of_nil in Hr].
  apply list_elem_of_singleton in Hr as ->. cbn. eauto 10.
Qed.

Lemma candidates_spec anchors r :
  r ∈ candidates anchors <-> exists a, a ∈ anchors /\ r ∈ records_of a.
Proof.
  unfold candidates. split.
  - intros H. apply list_elem_of_In, in_concat in H as (rs & Hrs & Hr).
    apply in_map_iff in Hrs as (a & <- & Ha).
    exists a. split; by apply list_elem_of_In.
  - intros (a & Ha & Hr). apply list_elem_of_In, in_concat.
    exists (records_of a). split; [apply in_map|]; by apply list_elem_of_In.
Qed.

End Candidates.

(** ** What the extractor keeps *)

Section Kept.

Import Extractor.

Lemma dedup_hrefs items h :
  h ∈ href <$> dedup items <-> h ∈ href <$> items.
Proof.
  destruct (dedup_loop_inv items ∅ []) as [_ Hmem].
  - apply seen_nothing.
  - cbn. constructor.
  - unfold dedup. rewrite Hmem. cbn. rewrite elem_of_nil. tauto.
Qed.

Lemma dedup_subset items r : r ∈ dedup items -> r ∈ items.
Proof.
  intros Hr. eapply elem_of_sublist; [exact Hr|].
  apply (dedup_loop_sublist items ∅ []).
Qed.






Lemma attr_href_some a h :
  get_attribute a "href"%string = Ok (Some h) -> attr_href a = h.
Proof. unfold attr_href. intros ->. cbn. apply str_or_empty. Qed.

Lemma truthy_nonempty (s : str) : s <> [] -> truthy s = true.
Proof. by destruct s. Qed.

(** A readable anchor with a qualifying href yields one candidate. *)
Lemma records_of_qualifying a h t :
  get_attribute a "href"%string = Ok (Some h) ->
  h <> [] ->
  is_listing_href h = true ->
  inner_text a = Ok t ->
  visit_anchor a =
    Ok [mkListing (first_nonempty_line (strip t)) h
          (try_or_none (price_lookup a)) (try_or_none (location_lookup a))] /\
  records_of a =
    [mkListing (first_nonempty_line (strip t)) h
       (try_or_none (price_lookup a)) (try_or_none (location_lookup a))].
Proof.
  intros Hh Hne Hq Ht.
  assert (Hv := visit_anchor_readable a (Some h) t Hh Ht).
  unfold qualifies in Hv. rewrite (attr_href_some a h Hh) in Hv.
  rewrite (truthy_nonempty h Hne), Hq in Hv. cbn [andb] in Hv.
  split; [exact Hv|]. unfold records_of. by rewrite Hv.
Qed.

(** An anchor whose href is missing or empty yields none. *)
Lemma records_of_no_href a :
  get_attribute a "href"%string = Ok None \/
  get_attribute a "href"%string = Ok (Some []) ->
  records_of a = [].
Proof.
  intros H. unfold records_of, visit_anchor.
  destruct H as [-> | ->]; cbn [mbind res_bind opt_or str_or truthy negb];
    by destruct (inner_text a).
Qed.

End Kept.

(** ** The title of a record *)

Section ExtractorClaims.

Import Extractor.

(** C7, as amended. The title of the record of a qualifying anchor is
    the first line of the anchor's text after leading and trailing
    white space has been stripped from the text. That line is never
    empty, so it is also the first non-empty line of the stripped text.
    An anchor whose text is empty or all white space gets the title
    [None]; no error is raised either way. *)
Theorem title_is_first_line_of_stripped_text (a : ElementHandle) (h t : str) :
  get_attribute a "href"%string = Ok (Some h) ->
  h <> [] ->
  is_listing_href h = true ->
  inner_text a = Ok t ->
  exists r,
    visit_anchor a = Ok [r] /\
    title r = first_nonempty_line (strip t) /\
    title r = head (splitlines (strip t)) /\
    (strip t = [] -> title r = None) /\
    (strip t <> [] -> exists l, title r = Some l /\ l <> []).
Proof.
  intros Hh Hne Hq Ht.
  destruct (records_of_qualifying a h t Hh Hne Hq Ht) as [Hv _].
  eexists. split; [exact Hv|]. cbn [title].
  destruct (title_of_strip t) as (_ & Hnil & Hcons).
  split; [done|].
  destruct (decide (strip t = [])) as [He|Hn].
  - split; [by rewrite (Hnil He), He|]. split; [done|]. by intros [].
  - destruct (Hcons Hn) as (l & Hl & Hlne & Hhd).
    split; [by rewrite Hl, Hhd|]. split; [done|]. intros _. by exists l.
Qed.

Lemma title_is_first_line_of_stripped_text_witness :
  exists r,
    visit_anchor (bare_anchor (Some (lit "/item/456")) (lit "  Bike Cover ")) = Ok [r] /\
    title r = first_nonempty_line (strip (lit "  Bike Cover ")) /\
    title r = head (splitlines (strip (lit "  Bike Cover "))) /\
    (strip (lit "  Bike Cover ") = [] -> title r = None) /\
    (strip (lit "  Bike Cover ") <> [] -> exists l, title r = Some l /\ l <> []).
Proof.
  apply (title_is_first_line_of_stripped_text
           (bare_anchor (Some (lit "/item/456")) (lit "  Bike Cover "))
           (lit "/item/456") (lit "  Bike Cover ")).
  - reflexivity.
  - discriminate.
  - reflexivity.
  - reflexivity.
Defined.

(** C7 as stated fails on a text with white space around it: the first
    non-empty line of the text " Bike" is " Bike", the title is "Bike";
    and when the first line holds only a space, that line is the first
    non-empty one but the title is taken from the line after it. *)
Lemma title_differs_from_first_nonempty_line_of_raw_text :
  (exists r,
     visit_anchor (bare_anchor (Some (lit "/item/456")) (lit " Bike")) = Ok [r] /\
     first_nonempty_line (lit " Bike") = Some (lit " Bike") /\
     title r = Some (lit "Bike") /\
     title r <> first_nonempty_line (lit " Bike")) /\
  (exists r,
     visit_anchor (bare_anchor (Some (lit "/item/456")) ([32; 10]%N ++ lit "Bike"))
       = Ok [r] /\
     first_nonempty_line ([32; 10]%N ++ lit "Bike") = Some [32%N] /\
     title r = Some (lit "Bike")).
Proof.
  split; eexists; (split; [reflexivity|]); cbn [title]; vm_compute; by repeat split.
Qed.

End ExtractorClaims.

(** ** The output of the extractor *)

Section ExtractorOutput.

Import Extractor.

(** C6. Every record of the extractor's output carries a non-empty
    href, which is the href attribute of some anchor of the page; an
    anchor whose href is missing or empty adds no record, whatever its
    other fields are. Conversely, when the page can be read, every
    anchor with a non-empty qualifying href has a record with that href
    in the output, whatever its price and location lookups do. *)
Theorem href_is_required_and_sufficient
    (qsa : string -> res (list ElementHandle)) (anchors : list ElementHandle) :
  qsa "a[href]"%string = Ok anchors ->
  (forall out, extract_listings_from_page qsa = Ok out ->
     forall r, r ∈ out ->
       href r <> [] /\
       exists a, a ∈ anchors /\ get_attribute a "href"%string = Ok (Some (href r))) /\
  (forall a,
     get_attribute a "href"%string = Ok None \/
     get_attribute a "href"%string = Ok (Some []) ->
     records_of a = [] /\ forall rs, visit_anchor a = Ok rs -> rs = []) /\
  (forallb readable anchors = true ->
   exists out, extract_listings_from_page qsa = Ok out /\
     forall a h, a ∈ anchors ->
       get_attribute a "href"%string = Ok (Some h) ->
       h <> [] -> is_listing_href h = true ->
       exists r, r ∈ out /\ href r = h).
Proof.
  intros Hq. split; [|split].
  - intros out Hout r Hr.
    destruct (extract_inv qsa out Hout) as (anchors' & Hq' & Hread & ->).
    assert (anchors' = anchors) as -> by congruence.
    apply dedup_subset, candidates_spec in Hr as (a & Ha & Hr).
    apply records_of_spec in Hr as (Hqual & Hhref & _).
    unfold qualifies in Hqual. apply andb_prop in Hqual as [Htruthy _].
    rewrite <- Hhref in Htruthy.
    split; [by destruct (href r)|].
    exists a. split; [done|].
    unfold attr_href in Hhref.
    destruct (get_attribute a "href"%string) as [[h|]|] eqn:Hh; cbn in Hhref.
    + rewrite str_or_empty in Hhref. by rewrite Hhref.
    + by rewrite Hhref in Htruthy.
    + by rewrite Hhref in Htruthy.
  - intros a Ha. assert (Hrec := records_of_no_href a Ha).
    split; [done|]. intros rs Hv. unfold records_of in Hrec. by rewrite Hv in Hrec.
  - intros Hread. exists (dedup (candidates anchors)).
    split; [by apply extract_readable|].
    intros a h Ha Hh Hne Hqual.
    assert (Hin : h ∈ href <$> dedup (candidates anchors)).
    { apply dedup_hrefs, list_elem_of_fmap.
      rewrite forallb_forall in Hread.
      destruct (readable_inv a) as (h' & t & Hh' & Ht).
      { apply Hread. by apply list_elem_of_In. }
      destruct (records_of_qualifying a h t Hh Hne Hqual Ht) as [_ Hrec].
      eexists. split; [|apply candidates_spec; exists a; split; [done|]].
      2: { rewrite Hrec. apply list_elem_of_here. }
      reflexivity. }
    apply list_elem_of_fmap in Hin as (r & -> & Hr). by exists r.
Qed.

Lemma href_is_required_and_sufficient_witness :
  records_of (bare_anchor None (lit "Sell")) = [] /\
  exists out,
    extract_listings_from_page sample_page = Ok out /\
    (forall r, r ∈ out -> href r <> []) /\
    exists r, r ∈ out /\ href r = lit "/item/456".
Proof.
  destruct (href_is_required_and_sufficient sample_page sample_anchors)
    as (Hout & Hnone & Hkept); [reflexivity|].
  split; [apply Hnone; by left|].
  destruct Hkept as (out & Hx & Hk); [reflexivity|].
  exists out. split; [exact Hx|]. split.
  - intros r Hr. by destruct (Hout out Hx r Hr).
  - apply (Hk (bare_anchor (Some (lit "/item/456")) (lit "  Bike Cover "))).
    + do 3 apply list_elem_of_further. apply list_elem_of_here.
    + reflexivity.
    + discriminate.
    + reflexivity.
Defined.



End ExtractorOutput.

(** ** The cap *)

Lemma is_ok_unit (r : res unit) : is_ok r = true -> r = Ok tt.
Proof. by destruct r as [[]|]. Qed.

Lemma scroll_loop_returns w : forall n i prev s,
  forallb (fun i =>
             is_ok (scroll_by w i) &&
             tolerated (wait_for_load_state_in_loop w i "networkidle" 5000) &&
             is_ok (scroll_height w i)) (seq i n) = true ->
  exists s', Loader.scroll_loop w n i prev s = (Ok tt, s').
Proof.
  induction n as [|n IH]; intros i prev s H; [by eexists|].
  cbn [seq forallb] in H. apply andb_prop in H as [Hi Hrest].
  apply andb_prop in Hi as [Hi Hh]. apply andb_prop in Hi as [Hs Hw].
  cbn [Loader.scroll_loop].
  rewrite bind_call, (is_ok_unit _ Hs), bind_call,
    (bind_except_timeout_call _ _ _ _ Hw), bind_call.
  destruct (scroll_height w i) as [h|]; [|done].
  destruct (h =? prev); [by eexists|]. by apply IH.
Qed.

Lemma load_returns w url s :
  is_ok (goto w url 30000) = true ->
  tolerated (wait_for_load_state w "networkidle" 15000) = true ->
  forallb (fun i =>
             is_ok (scroll_by w i) &&
             tolerated (wait_for_load_state_in_loop w i "networkidle" 5000) &&
             is_ok (scroll_height w i)) (seq 0 10) = true ->
  exists s', Loader.load w url s = (Ok tt, s').
Proof.
  intros Hg Hw Hl. unfold Loader.load.
  rewrite bind_call, bind_call, (is_ok_unit _ Hg),
    (bind_except_timeout_call _ _ _ _ Hw), bind_call.
  by apply scroll_loop_returns.
Qed.

Lemma scrape_cooperative w url max_items headless unique :
  cooperative w url headless = true ->
  Extractor.extract_listings_from_page (query_selector_all w) = Ok unique ->
  (scrape w url max_items headless).1 = Ok (cap unique max_items).
Proof.
  unfold cooperative. intros H Hx.
  apply andb_prop in H as [H Hclose]. apply andb_prop in H as [H Hloop].
  apply andb_prop in H as [H Hwait]. apply andb_prop in H as [H Hgoto].
  apply andb_prop in H as [H Hpage]. apply andb_prop in H as [H Hctx].
  apply andb_prop in H as [Hstart Hlaunch].
  unfold scrape, scrape_session, with_sync_playwright, scrape_body.
  rewrite (is_ok_unit _ Hstart), (bind_browser_launch _ _ _ _ (is_ok_unit _ Hlaunch)).
  rewrite bind_call, (is_ok_unit _ Hctx), bind_call, (is_ok_unit _ Hpage).
  match goal with
  | |- context [(Loader.load w url ≫= _) ?s0] =>
      destruct (load_returns w url s0) as [s1 Hl]; [done..|]
  end.
  rewrite (bind_ok _ _ _ _ _ Hl), bind_call, Hx.
  unfold mbind at 1, M_bind at 1, browser_close.
  rewrite (is_ok_unit _ Hclose). reflexivity.
Qed.

Lemma length_slice_to {A} (l : list A) (stop : Z) :
  Z.of_nat (length (slice_to l stop)) =
  if stop <? 0 then Z.max (stop + Z.of_nat (length l)) 0
  else Z.min stop (Z.of_nat (length l)).
Proof.
  unfold slice_to. rewrite length_take.
  destruct (Z.ltb_spec stop 0); lia.
Qed.

Lemma cap_nonneg results max_items :
  0 <= max_items ->
  cap results max_items = take (Z.to_nat max_items) results /\
  Z.of_nat (length (cap results max_items)) =
    Z.min max_items (Z.of_nat (length results)).
Proof.
  intros Hn. unfold cap.
  destruct (Z.gtb_spec (Z.of_nat (length results)) max_items) as [Hgt|Hle].
  - unfold slice_to. destruct (Z.ltb_spec max_items 0); [lia|].
    rewrite Z.min_l by lia. split; [done|]. rewrite length_take. lia.
  - split; [|lia]. rewrite take_ge; [done|lia].
Qed.

Lemma cap_negative results j :
  0 < j ->
  cap results (- j) = take (length results - Z.to_nat j) results /\
  Z.of_nat (length (cap results (- j))) =
    Z.max 0 (Z.of_nat (length results) - j).
Proof.
  intros Hj. unfold cap.
  destruct (Z.gtb_spec (Z.of_nat (length results)) (- j)) as [Hgt|Hle]; [|lia].
  unfold slice_to. destruct (Z.ltb_spec (- j) 0); [|lia].
  assert (Z.to_nat (Z.max (- j + Z.of_nat (length results)) 0) =
          (length results - Z.to_nat j)%nat) as -> by lia.
  split; [done|]. rewrite length_take. lia.
Qed.

Lemma cap_zero results : cap results 0 = [].
Proof.
  unfold cap.
  destruct (Z.gtb_spec (Z.of_nat (length results)) 0) as [Hgt|Hle].
  - unfold slice_to. destruct (Z.ltb_spec 0 0); [lia|].
    by rewrite Z.min_l by lia.
  - destruct results; [done|]. cbn in Hle. lia.
Qed.

Section Cap.

Import Extractor.

(** C2, as amended. When every step of [scrape] succeeds and
    [max_items] is not negative, [scrape] returns the first [max_items]
    records of the deduplicated candidate list, or all of them when
    there are fewer: the length of the result is the minimum of
    [max_items] and the number of distinct hrefs, and the records cut
    off are the ones discovered last. *)
Theorem cap_keeps_the_earliest
    (w : World) (url : str) (max_items : Z) (headless : bool)
    (anchors : list ElementHandle) :
  cooperative w url headless = true ->
  query_selector_all w "a[href]"%string = Ok anchors ->
  forallb readable anchors = true ->
  0 <= max_items ->
  let unique := dedup (candidates anchors) in
  NoDup (href <$> unique) /\
  exists results,
    (scrape w url max_items headless).1 = Ok results /\
    results = take (Z.to_nat max_items) unique /\
    unique = results ++ drop (Z.to_nat max_items) unique /\
    Z.of_nat (length results) = Z.min max_items (Z.of_nat (length unique)).
Proof.
  intros Hcoop Hq Hread Hn unique.
  split.
  { destruct (dedup_loop_inv (candidates anchors) ∅ []) as [Hnd _]; [|by constructor|done].
    apply seen_nothing. }
  exists (cap unique max_items).
  split; [by apply scrape_cooperative, extract_readable|].
  destruct (cap_nonneg unique max_items Hn) as [Hcap Hlen].
  split; [done|]. split; [|done]. by rewrite Hcap, take_drop.
Qed.

Lemma cap_keeps_the_earliest_witness :
  let unique := dedup (candidates sample_anchors) in
  NoDup (href <$> unique) /\
  exists results,
    (scrape sample_world sample_url 1 true).1 = Ok results /\
    results = take (Z.to_nat 1) unique /\
    unique = results ++ drop (Z.to_nat 1) unique /\
    Z.of_nat (length results) = Z.min 1 (Z.of_nat (length unique)).
Proof.
  apply (cap_keeps_the_earliest sample_world sample_url 1 true sample_anchors).
  - reflexivity.
  - reflexivity.
  - reflexivity.
  - lia.
Defined.

(** C2 as stated fails for a negative [max_items]: with two distinct
    hrefs on the page and [max_items = -1], [scrape] returns one
    record, and the minimum of -1 and 2 is no length at all. *)
Lemma cap_of_negative_max_items_is_not_the_minimum :
  exists results,
    (scrape sample_world sample_url (-1) true).1 = Ok results /\
    length (dedup (candidates sample_anchors)) = 2%nat /\
    length results = 1%nat /\
    Z.of_nat (length results) <> Z.min (-1) 2.
Proof.
  eexists. split; [vm_compute; reflexivity|].
  split; [by vm_compute|]. split; [reflexivity|]. cbn. lia.
Qed.

(** C10. When every step of [scrape] succeeds, [max_items = 0] gives
    the empty result, and a negative [max_items = -j] gives the
    deduplicated list without its last [j] records: with [D] records
    in that list the result has [max 0 (D - j)] of them, which is not
    the minimum of [max_items] and [D]. *)
Theorem cap_at_zero_and_below
    (w : World) (url : str) (headless : bool) (anchors : list ElementHandle) :
  cooperative w url headless = true ->
  query_selector_all w "a[href]"%string = Ok anchors ->
  forallb readable anchors = true ->
  let unique := dedup (candidates anchors) in
  (scrape w url 0 headless).1 = Ok [] /\
  forall j, 0 < j ->
    exists results,
      (scrape w url (- j) headless).1 = Ok results /\
      results = take (length unique - Z.to_nat j) unique /\
      Z.of_nat (length results) = Z.max 0 (Z.of_nat (length unique) - j) /\
      Z.of_nat (length results) <> Z.min (- j) (Z.of_nat (length unique)).
Proof.
  intros Hcoop Hq Hread unique.
  assert (Hx := extract_readable _ _ Hq Hread). fold unique in Hx.
  split.
  - by rewrite (scrape_cooperative w url 0 headless unique Hcoop Hx), cap_zero.
  - intros j Hj. exists (cap unique (- j)).
    split; [by apply scrape_cooperative|].
    destruct (cap_negative unique j Hj) as [Hcap Hlen].
    split; [done|]. split; [done|]. lia.
Qed.

Lemma cap_at_zero_and_below_witness :
  let unique := dedup (candidates sample_anchors) in
  (scrape sample_world sample_url 0 true).1 = Ok [] /\
  forall j, 0 < j ->
    exists results,
      (scrape sample_world sample_url (- j) true).1 = Ok results /\
      results = take (length unique - Z.to_nat j) unique /\
      Z.of_nat (length results) = Z.max 0 (Z.of_nat (length unique) - j) /\
      Z.of_nat (length results) <> Z.min (- j) (Z.of_nat (length unique)).
Proof.
  apply (cap_at_zero_and_below sample_world sample_url true sample_anchors);
    reflexivity.
Defined.

End Cap.

(** ** The output file *)

Section Output.

Lemma encode_record r :
  Json.encode 2 (Json.of_dict (to_dict r)) 1 = json_object r.
Proof.
  unfold json_object, json_field.
  destruct r as [[t|] h [p|] [l|]];
    cbv -[app]; repeat first [rewrite <- !app_assoc | progress cbn [app]];
    reflexivity.
Qed.

Lemma encode_records rs :
  map (fun x => Json.encode 2 x 1) (map (fun r => Json.of_dict (to_dict r)) rs) =
  map json_object rs.
Proof.
  rewrite map_map. apply map_ext. intros r. apply encode_record.
Qed.

Lemma dumps_json_text results : Json.dumps results 2 = json_text results.
Proof.
  unfold Json.dumps, json_text.
  destruct results as [|r rs]; [reflexivity|].
  change (Json.encode 2
            (Json.Array (map (fun r0 => Json.of_dict (to_dict r0)) (r :: rs))) 0)
    with (lit "[" ++ Json.newline_indent 2 1 ++
          join (lit "," ++ Json.newline_indent 2 1)
            (map (fun x => Json.encode 2 x 1)
               (map (fun r0 => Json.of_dict (to_dict r0)) (r :: rs))) ++
          Json.newline_indent 2 0 ++ lit "]").
  rewrite encode_records. reflexivity.
Qed.

Lemma opt_or_csv_cell v : opt_or v [] = csv_cell v.
Proof. destruct v as [s|]; cbn; [apply str_or_empty|done]. Qed.

Lemma csv_row_of_record r :
  Csv.row (map (fun k => opt_or (dict_get (to_dict r) k) []) keys) = csv_line r.
Proof.
  unfold keys. cbn [map].
  change (dict_get (to_dict r) "title"%string) with (title r).
  change (dict_get (to_dict r) "price"%string) with (price r).
  change (dict_get (to_dict r) "location"%string) with (location r).
  change (dict_get (to_dict r) "href"%string) with (Some (href r)).
  rewrite !opt_or_csv_cell. unfold Csv.row, csv_line. cbn [map join csv_cell].
  rewrite <- !app_assoc. reflexivity.
Qed.

Lemma save_results_csv_text results outpath :
  lower (suffix outpath) <> lit ".json" ->
  save_results results outpath = csv_text results.
Proof.
  intros Hne. unfold save_results, csv_text. rewrite decide_False by done.
  change (Csv.row (map lit keys))
    with (lit "title,price,location,href" ++ [13; 10]%N).
  rewrite <- app_assoc. do 3 f_equal.
  apply map_ext, csv_row_of_record.
Qed.

Lemma save_results_json_text results outpath :
  lower (suffix outpath) = lit ".json" ->
  save_results results outpath = json_text results.
Proof.
  intros He. unfold save_results. rewrite decide_True by done.
  apply dumps_json_text.
Qed.


End Output.

Section OutputClaims.



End OutputClaims.

(** ** Worked examples *)

(** "a\r\nb\n\nc\n" has the lines a, b, the empty line and c. *)
Example splitlines_crlf :
  splitlines (lit "a" ++ [13; 10]%N ++ lit "b" ++ [10; 10]%N ++ lit "c" ++ [10]%N)
  = [lit "a"; lit "b"; []; lit "c"].
Proof. reflexivity. Qed.

(** The sample page: an anchor without href, a priced listing, a second
    anchor to the same listing and a listing with nothing to look up. *)
Example sample_extraction :
  Extractor.extract_listings_from_page sample_page =
  Ok [ mkListing (Some (lit "Car Cover")) (lit "/item/123")
         (Some ([rupee] ++ lit "500")) None;
       mkListing (Some (lit "Bike Cover")) (lit "/item/456") None None ].
Proof. vm_compute. reflexivity. Qed.

(** The page of [sample_world] stops growing after three scrolls: four
    iterations, then the extraction and the teardown. *)
Example sample_scrape_log :
  log (scrape sample_world sample_url 200 true).2 =
  [EvStart; EvLaunch true; EvNewContext; EvNewPage; EvPrint;
   EvGoto sample_url 30000; EvWaitForLoadState "networkidle" 15000; EvSleep]
  ++ concat (replicate 4 iteration_events)
  ++ [EvQuerySelectorAll; EvClose; EvStop].
Proof. vm_compute. reflexivity. Qed.

(** The two files written for [sample_results]. *)
Example sample_csv :
  save_results sample_results (mkPath (lit ".csv")) =
  lit "title,price,location,href" ++ [13; 10]%N ++
  [34%N] ++ lit "Car, Cover" ++ [34%N] ++ lit "," ++ [rupee] ++ lit "500,,/item/1"
    ++ [13; 10]%N ++
  lit ",," ++ [34%N] ++ lit "Pune" ++ [10%N] ++ lit "MH" ++ [34%N] ++ lit ",/item/2"
    ++ [13; 10]%N.
Proof. vm_compute. reflexivity. Qed.

(** * Further properties of the code *)

(** ** The test for listing links *)

Lemma startswith_app p q s :
  startswith (p ++ q) s = true -> startswith p s = true.
Proof.
  revert s. induction p as [|a p IH]; intros s H; [by destruct s|].
  destruct s as [|b s]; [done|]. cbn in *.
  apply andb_prop in H as [Hab H]. rewrite Hab. by apply IH.
Qed.

Lemma contains_app p q s :
  contains (p ++ q) s = true -> contains p s = true.
Proof.
  induction s as [|b s IH]; cbn [contains]; intros H.
  - apply orb_prop in H as [H|H]; [|done].
    by rewrite (startswith_app p q [] H).
  - apply orb_prop in H as [H|H].
    + by rewrite (startswith_app p q _ H).
    + rewrite (IH H). apply orb_true_r.
Qed.

(** X1. The third test of line 48 never decides: an href that contains
    "/items/" contains "/item", so an anchor qualifies exactly when its
    href contains "/item" or "/i/". *)
Theorem items_test_is_redundant (h : str) :
  Extractor.is_listing_href h = contains (lit "/item") h || contains (lit "/i/") h.
Proof.
  unfold Extractor.is_listing_href.
  destruct (contains (lit "/items/") h) eqn:H3; [|by rewrite orb_false_r].
  change (lit "/items/") with (lit "/item" ++ lit "s/") in H3.
  by rewrite (contains_app _ _ _ H3).
Qed.

(** ** Deduplication, again *)

Lemma dedup_loop_distinct items : forall seen unique,
  NoDup (href <$> items) ->
  (forall h, h ∈ href <$> items -> h ∉ seen) ->
  Extractor.dedup_loop items seen unique = unique ++ items.
Proof.
  induction items as [|it rest IH]; intros seen unique Hnd Hfresh.
  - cbn. by rewrite app_nil_r.
  - cbn [Extractor.dedup_loop]. rewrite str_or_empty.
    rewrite fmap_cons in Hnd. apply NoDup_cons in Hnd as [Hnin Hnd].
    rewrite decide_False by (apply Hfresh; rewrite fmap_cons; apply list_elem_of_here).
    rewrite IH; [by rewrite <- app_assoc|done|].
    intros h Hh. rewrite elem_of_union, elem_of_singleton.
    intros [->|Hs]; [done|].
    apply (Hfresh h); [|done]. rewrite fmap_cons. by apply list_elem_of_further.
Qed.

Lemma dedup_NoDup items : NoDup (href <$> Extractor.dedup items).
Proof.
  destruct (dedup_loop_inv items ∅ []) as [Hnd _]; [|by constructor|done].
  apply seen_nothing.
Qed.

Lemma dedup_distinct items :
  NoDup (href <$> items) -> Extractor.dedup items = items.
Proof.
  intros Hnd. unfold Extractor.dedup.
  rewrite dedup_loop_distinct; [done|done|]. intros h _. set_solver.
Qed.

(** X2. Removing duplicates changes nothing exactly when the hrefs of
    the list are pairwise distinct. *)
Theorem dedup_fixes_exactly_the_distinct (items : list Listing) :
  Extractor.dedup items = items <-> NoDup (href <$> items).
Proof.
  split; [|apply dedup_distinct].
  intros H. rewrite <- H. apply dedup_NoDup.
Qed.

(** X3. Removing duplicates twice is the same as removing them once. *)
Theorem dedup_idempotent (items : list Listing) :
  Extractor.dedup (Extractor.dedup items) = Extractor.dedup items.
Proof. apply dedup_distinct, dedup_NoDup. Qed.

(** ** Pages that cannot be read, and pages without listings *)

Section Unreadable.

Import Extractor.

Lemma collect_app l1 l2 items :
  collect (l1 ++ l2) items = (x ← collect l1 items; collect l2 x).
Proof.
  revert items. induction l1 as [|a l1 IH]; intros items; [done|].
  cbn [app collect]. destruct (visit_anchor a) as [new|e]; [|done].
  cbn [mbind res_bind]. apply IH.
Qed.

Lemma visit_anchor_unreadable a e :
  get_attribute a "href"%string = Raise e \/
  (is_ok (get_attribute a "href"%string) = true /\ inner_text a = Raise e) ->
  visit_anchor a = Raise e.
Proof.
  unfold visit_anchor. intros [->|[Hh ->]]; [done|].
  by destruct (get_attribute a "href"%string).
Qed.

(** X4. The two reads of an anchor that stand outside a [try] are
    fatal: when the href or the text of one anchor cannot be read, the
    extractor raises that error and returns nothing, even if the anchor
    is no listing and every other anchor is fine. *)
Theorem unreadable_anchor_aborts_extraction
    (qsa : string -> res (list ElementHandle))
    (pre post : list ElementHandle) (a : ElementHandle) (e : exn) :
  qsa "a[href]"%string = Ok (pre ++ a :: post) ->
  forallb readable pre = true ->
  get_attribute a "href"%string = Raise e \/
  (is_ok (get_attribute a "href"%string) = true /\ inner_text a = Raise e) ->
  extract_listings_from_page qsa = Raise e.
Proof.
  intros Hq Hpre Ha. unfold extract_listings_from_page. rewrite Hq.
  cbn [mbind res_bind]. rewrite collect_app, (collect_readable pre [] Hpre).
  cbn [mbind res_bind collect]. by rewrite (visit_anchor_unreadable a e Ha).
Qed.

Lemma unreadable_anchor_aborts_extraction_witness :
  extract_listings_from_page
    (fun _ => Ok (sample_anchors ++ detached_anchor :: sample_anchors)) =
  Raise (PlaywrightError "Element is not attached to the DOM").
Proof.
  apply (unreadable_anchor_aborts_extraction _ sample_anchors sample_anchors
           detached_anchor).
  - reflexivity.
  - reflexivity.
  - right. split; reflexivity.
Defined.

Lemma dedup_nil_inv items : dedup items = [] -> items = [].
Proof.
  intros H. destruct items as [|it rest]; [done|].
  assert (Hin : href it ∈ href <$> dedup (it :: rest)).
  { apply dedup_hrefs. rewrite fmap_cons. apply list_elem_of_here. }
  rewrite H in Hin. by apply elem_of_nil in Hin.
Qed.

Lemma records_of_qualifies a :
  readable a = true -> (records_of a = [] <-> qualifies a = false).
Proof.
  intros Hr. destruct (readable_inv a Hr) as (h & t & Hh & Ht).
  unfold records_of. rewrite (visit_anchor_readable a h t Hh Ht).
  by destruct (qualifies a).
Qed.

(** X5. On a page that can be read the extractor returns the empty
    list, and no error, exactly when no anchor has a non-empty href
    with one of the listing marks; a page without anchors is such a
    page. *)
Theorem no_listing_means_empty_result
    (qsa : string -> res (list ElementHandle)) (anchors : list ElementHandle) :
  qsa "a[href]"%string = Ok anchors ->
  forallb readable anchors = true ->
  (extract_listings_from_page qsa = Ok [] <->
   forall a, a ∈ anchors -> qualifies a = false).
Proof.
  intros Hq Hr. rewrite (extract_readable qsa anchors Hq Hr).
  rewrite forallb_forall in Hr. split.
  - intros H a Ha. injection H as H. apply dedup_nil_inv in H.
    apply records_of_qualifies; [by apply Hr, list_elem_of_In|].
    destruct (records_of a) as [|r rs] eqn:Hrec; [done|].
    assert (Hin : r ∈ candidates anchors).
    { apply candidates_spec. exists a. split; [done|].
      rewrite Hrec. apply list_elem_of_here. }
    rewrite H in Hin. by apply elem_of_nil in Hin.
  - intros H. f_equal.
    assert (Hc : candidates anchors = []).
    { destruct (candidates anchors) as [|r rs] eqn:Hcand; [done|].
      assert (Hin : r ∈ candidates anchors) by (rewrite Hcand; apply list_elem_of_here).
      apply candidates_spec in Hin as (a & Ha & Hin).
      assert (Hq' := H a Ha).
      apply records_of_qualifies in Hq'; [|by apply Hr, list_elem_of_In].
      rewrite Hq' in Hin. by apply elem_of_nil in Hin. }
    by rewrite Hc.
Qed.

Lemma no_listing_means_empty_result_witness :
  extract_listings_from_page (fun _ => Ok [bare_anchor None (lit "Sell")]) = Ok [] <->
  forall a, a ∈ [bare_anchor None (lit "Sell")] -> qualifies a = false.
Proof.
  apply (no_listing_means_empty_result _ [bare_anchor None (lit "Sell")]);
    reflexivity.
Defined.

End Unreadable.

(** ** The fields of a record *)

Section Fields.

Import Extractor.

Lemma splitlines_lines s :
  Forall (Forall (fun c => is_linebreak c = false)) (splitlines s) /\
  forall c t, s = c :: t ->
    Forall (Forall (fun c => is_linebreak c = false)) (splitlines t).
Proof.
  induction s as [|c t [IH1 IH2]]; [split; [constructor|done]|].
  split; [|by intros c0 t0 [= <- <-]].
  cbn [splitlines]. destruct (is_linebreak c) eqn:Hc.
  - constructor; [constructor|].
    destruct t as [|c' t']; [constructor|].
    destruct ((c =? 13)%N && (c' =? 10)%N); [by eapply IH2|exact IH1].
  - destruct (splitlines t) as [|l ls]; [by repeat constructor|].
    apply Forall_cons in IH1 as [Hl Hls]. by repeat constructor.
Qed.

Lemma first_line_of_stripped t l :
  first_nonempty_line (strip t) = Some l ->
  (exists c l', l = c :: l' /\ is_space c = false) /\
  Forall (fun c => is_linebreak c = false) l.
Proof.
  unfold first_nonempty_line. intros H.
  destruct (strip_head t) as [He|(c & r & He & Hc)]; rewrite He in H; [done|].
  assert (Hlb : is_linebreak c = false).
  { destruct (is_linebreak c) eqn:E; [|done].
    apply is_linebreak_is_space in E. congruence. }
  destruct (splitlines_lines (c :: r)) as [Hall _].
  destruct (splitlines_head c r Hlb) as (l0 & ls & Hs). rewrite Hs in H, Hall.
  rewrite filter_cons, decide_True in H by done. injection H as <-.
  split; [by exists c, l0|]. by apply Forall_cons in Hall as [? _].
Qed.

Lemma output_record qsa out r :
  extract_listings_from_page qsa = Ok out -> r ∈ out ->
  exists a t, inner_text a = Ok t /\
    title r = first_nonempty_line (strip t) /\
    price r = try_or_none (price_lookup a) /\
    location r = try_or_none (location_lookup a).
Proof.
  intros Hx Hr. destruct (extract_inv qsa out Hx) as (anchors & _ & _ & ->).
  apply dedup_subset, candidates_spec in Hr as (a & _ & Hr).
  apply records_of_spec in Hr as (_ & _ & Hp & Hl & t & Ht & Htitle).
  by exists a, t.
Qed.

(** X6. A title in the extractor's output is one line of visible text:
    it is not empty, begins with a character that is no white space
    and holds no line break. *)
Theorem title_is_one_line
    (qsa : string -> res (list ElementHandle)) (out : list Listing)
    (r : Listing) (l : str) :
  extract_listings_from_page qsa = Ok out ->
  r ∈ out ->
  title r = Some l ->
  (exists c l', l = c :: l' /\ is_space c = false) /\
  Forall (fun c => is_linebreak c = false) l.
Proof.
  intros Hx Hr Ht.
  destruct (output_record qsa out r Hx Hr) as (a & t & _ & Htitle & _).
  rewrite Htitle in Ht. by apply first_line_of_stripped in Ht.
Qed.

Lemma title_is_one_line_witness :
  (exists c l', lit "Car Cover" = c :: l' /\ is_space c = false) /\
  Forall (fun c => is_linebreak c = false) (lit "Car Cover").
Proof.
  apply (title_is_one_line sample_page
           [ mkListing (Some (lit "Car Cover")) (lit "/item/123")
               (Some ([rupee] ++ lit "500")) None;
             mkListing (Some (lit "Bike Cover")) (lit "/item/456") None None ]
           (mkListing (Some (lit "Car Cover")) (lit "/item/123")
              (Some ([rupee] ++ lit "500")) None)).
  - vm_compute. reflexivity.
  - apply list_elem_of_here.
  - reflexivity.
Defined.

Lemma lstrip_fixed s :
  (forall c r, s = c :: r -> is_space c = false) -> lstrip s = s.
Proof.
  destruct s as [|c r]; [done|]. intros H. cbn. by rewrite (H c r eq_refl).
Qed.

Lemma lstrip_idempotent s : lstrip (lstrip s) = lstrip s.
Proof.
  apply lstrip_fixed. intros c r Hs.
  destruct (lstrip_head s) as [He|(c' & r' & He & Hc)]; congruence.
Qed.

Lemma strip_idempotent s : strip (strip s) = strip s.
Proof.
  assert (Hl : lstrip (strip s) = strip s).
  { apply lstrip_fixed. intros c r Hs.
    destruct (strip_head s) as [He|(c' & r' & He & Hc)]; congruence. }
  unfold strip at 1. rewrite Hl. unfold strip, rstrip.
  by rewrite rev_involutive, lstrip_idempotent.
Qed.

Lemma strip_ends s c :
  head (strip s) = Some c \/ last (strip s) = Some c -> is_space c = false.
Proof.
  intros [H|H].
  - destruct (strip_head s) as [He|(c' & r' & He & Hc)]; rewrite He in H; [done|].
    cbn in H. congruence.
  - unfold strip, rstrip in H.
    destruct (lstrip_head (rev (lstrip s))) as [He|(c' & r' & He & Hc)];
      rewrite He in H; [done|].
    cbn [rev] in H. rewrite last_snoc in H. congruence.
Qed.

Lemma price_lookup_stripped a p :
  price_lookup a = Ok (Some p) -> exists t, p = strip t.
Proof.
  unfold price_lookup.
  destruct (handle_or _ _) as [[e|]|]; cbn [mbind res_bind]; [|done..].
  destruct (inner_text e) as [t|]; cbn [mbind res_bind]; [|done].
  intros [= <-]. by exists t.
Qed.

Lemma location_lookup_stripped a p :
  location_lookup a = Ok (Some p) -> exists t, p = strip t.
Proof.
  unfold location_lookup.
  destruct (evaluate_handle_as_element a _) as [[parent|]|];
    cbn [mbind res_bind]; [|done..].
  destruct (handle_or _ _) as [[e|]|]; cbn [mbind res_bind]; [|done..].
  destruct (inner_text e) as [t|]; cbn [mbind res_bind]; [|done].
  intros [= <-]. by exists t.
Qed.

Lemma try_or_none_some {A} (r : res (option A)) v :
  try_or_none r = Some v -> r = Ok (Some v).
Proof. destruct r as [[x|]|]; cbn; congruence. Qed.

(** X7. A price and a location in the extractor's output carry no
    white space at either end: stripping them again changes nothing,
    and neither their first nor their last character is white space. *)
Theorem price_and_location_are_stripped
    (qsa : string -> res (list ElementHandle)) (out : list Listing)
    (r : Listing) (p : str) :
  extract_listings_from_page qsa = Ok out ->
  r ∈ out ->
  price r = Some p \/ location r = Some p ->
  strip p = p /\
  forall c, head p = Some c \/ last p = Some c -> is_space c = false.
Proof.
  intros Hx Hr Hp.
  destruct (output_record qsa out r Hx Hr) as (a & t & _ & _ & Hprice & Hloc).
  assert (Hs : exists t', p = strip t').
  { destruct Hp as [Hp|Hp].
    - rewrite Hprice in Hp. by apply try_or_none_some, price_lookup_stripped in Hp.
    - rewrite Hloc in Hp. by apply try_or_none_some, location_lookup_stripped in Hp. }
  destruct Hs as [t' ->]. split; [apply strip_idempotent|apply strip_ends].
Qed.

Lemma price_and_location_are_stripped_witness :
  strip ([rupee] ++ lit "500") = [rupee] ++ lit "500" /\
  forall c, head ([rupee] ++ lit "500") = Some c \/
            last ([rupee] ++ lit "500") = Some c -> is_space c = false.
Proof.
  apply (price_and_location_are_stripped sample_page
           [ mkListing (Some (lit "Car Cover")) (lit "/item/123")
               (Some ([rupee] ++ lit "500")) None;
             mkListing (Some (lit "Bike Cover")) (lit "/item/456") None None ]
           (mkListing (Some (lit "Car Cover")) (lit "/item/123")
              (Some ([rupee] ++ lit "500")) None)).
  - vm_compute. reflexivity.
  - apply list_elem_of_here.
  - by left.
Defined.

(** X8. The price selectors are tried in order and the first answer
    that is not [None] decides. An error raised by the first selector
    therefore leaves the record without a price even when a later
    selector would have found one; after a miss of the first selector
    the element found by the second gives the price. *)
Theorem first_decisive_selector_wins (a : ElementHandle) (h t : str) :
  get_attribute a "href"%string = Ok (Some h) ->
  h <> [] ->
  is_listing_href h = true ->
  inner_text a = Ok t ->
  exists r, visit_anchor a = Ok [r] /\
    (forall e, query_selector a ".price, ._89yzn, ._2xKfz"%string = Raise e ->
       price r = None) /\
    (forall el p,
       query_selector a ".price, ._89yzn, ._2xKfz"%string = Ok (Some el) ->
       inner_text el = Ok p -> price r = Some (strip p)) /\
    (forall el p,
       query_selector a ".price, ._89yzn, ._2xKfz"%string = Ok None ->
       query_selector a "span:has-text('₹')"%string = Ok (Some el) ->
       inner_text el = Ok p -> price r = Some (strip p)).
Proof.
  intros Hh Hne Hq Ht.
  destruct (records_of_qualifying a h t Hh Hne Hq Ht) as [Hv _].
  eexists. split; [exact Hv|]. cbn [price]. unfold price_lookup.
  split; [|split].
  - by intros e ->.
  - intros el p -> Hp. cbn. by rewrite Hp.
  - intros el p -> -> Hp. cbn. by rewrite Hp.
Qed.

Lemma first_decisive_selector_wins_witness :
  exists r,
    visit_anchor (flaky_anchor (lit "/item/7") (lit "Seat Cover") (lit "INR 900"))
      = Ok [r] /\ price r = None.
Proof.
  destruct (first_decisive_selector_wins
              (flaky_anchor (lit "/item/7") (lit "Seat Cover") (lit "INR 900"))
              (lit "/item/7") (lit "Seat Cover"))
    as (r & Hv & Hraise & _); [reflexivity|discriminate|reflexivity|reflexivity|].
  exists r. split; [exact Hv|].
  apply (Hraise (PlaywrightError "Execution context was destroyed")). reflexivity.
Defined.

End Fields.

(** ** Runs of the scroll loop that do not converge *)

Lemma iterations_replicate n s :
  iterations (add_log (concat (replicate n iteration_events)) s) =
  (iterations s + n)%nat.
Proof.
  unfold iterations, add_log. cbn [log]. rewrite filter_app, length_app.
  f_equal. induction n as [|n IH]; [reflexivity|].
  change (replicate (S n) iteration_events)
    with (iteration_events :: replicate n iteration_events).
  rewrite concat_cons, filter_app, length_app, IH. reflexivity.
Qed.

Lemma measurements_replicate n s :
  measurements (add_log (concat (replicate n iteration_events)) s) =
  (measurements s + n)%nat.
Proof.
  unfold measurements, add_log. cbn [log]. rewrite filter_app, length_app.
  f_equal. induction n as [|n IH]; [reflexivity|].
  change (replicate (S n) iteration_events)
    with (iteration_events :: replicate n iteration_events).
  rewrite concat_cons, filter_app, length_app, IH. reflexivity.
Qed.

Lemma scroll_loop_keeps_changing w : forall n i prev s,
  scrolling_succeeds w i n = true ->
  changes_from w prev i n = true ->
  Loader.scroll_loop w n i prev s =
  (Ok tt, add_log (concat (replicate n iteration_events)) s).
Proof.
  induction n as [|n IH]; intros i prev s Hscroll Hch.
  - cbn. by rewrite add_log_nil.
  - cbn [scrolling_succeeds forallb seq] in Hscroll.
    apply andb_prop in Hscroll as [Hi Hrest].
    apply andb_prop in Hi as [Hsb Hw].
    cbn [changes_from] in Hch.
    destruct (scroll_height w i) as [h|] eqn:Hh; [|done].
    apply andb_prop in Hch as [Hne Hch]. apply negb_true_iff in Hne.
    destruct (scroll_by w i) as [[]|] eqn:Hs; [|done].
    cbn [Loader.scroll_loop].
    rewrite bind_call, Hs, bind_call, (bind_except_timeout_call _ _ _ _ Hw),
      bind_call, Hh, !add_log_add_log, Hne. cbn [app].
    rewrite (IH (S i) h _ Hrest Hch), add_log_add_log. reflexivity.
Qed.

(** X9. The loop gives up on a page that keeps growing: when every one
    of ten measured heights differs from the one before it, the loop
    runs its ten iterations, measures ten times and ends normally, so
    that the extraction follows. *)
Theorem scroll_loop_gives_up_after_ten (w : World) (s : Session) :
  scrolling_succeeds w 0 10 = true ->
  changes_from w 0 0 10 = true ->
  let r := Loader.scroll_loop w 10 0 0 s in
  r.1 = Ok tt /\
  iterations r.2 = (iterations s + 10)%nat /\
  measurements r.2 = (measurements s + 10)%nat.
Proof.
  intros Hscroll Hch r. subst r.
  rewrite (scroll_loop_keeps_changing w 10 0 0 s Hscroll Hch). cbn [fst snd].
  by rewrite iterations_replicate, measurements_replicate.
Qed.

Lemma scroll_loop_gives_up_after_ten_witness :
  let r := Loader.scroll_loop (quiet_world (growing_to 50) []) 10 0 0 new_session in
  r.1 = Ok tt /\
  iterations r.2 = (iterations new_session + 10)%nat /\
  measurements r.2 = (measurements new_session + 10)%nat.
Proof.
  apply (scroll_loop_gives_up_after_ten (quiet_world (growing_to 50) []) new_session);
    reflexivity.
Defined.

(** ** Errors that end a run *)

Lemma except_timeout_call_error ev (e : exn) s :
  e <> PlaywrightTimeoutError ->
  except_timeout (call ev (Raise e)) s = (Raise e, add_log [ev] s).
Proof. intros He. unfold except_timeout, call. by destruct e. Qed.

Lemma scrape_when_load_raises w url max_items headless e s' :
  is_ok (start w) = true ->
  is_ok (launch w headless) = true ->
  is_ok (new_context w) = true ->
  is_ok (new_page w) = true ->
  Loader.load w url (loading_session headless) = (Raise e, s') ->
  scrape w url max_items headless = (Raise e, playwright_stop s').
Proof.
  intros Hstart Hlaunch Hctx Hpage Hload.
  unfold scrape, scrape_session, with_sync_playwright, scrape_body.
  rewrite (is_ok_unit _ Hstart), (bind_browser_launch _ _ _ _ (is_ok_unit _ Hlaunch)).
  rewrite bind_call, (is_ok_unit _ Hctx), bind_call, (is_ok_unit _ Hpage).
  by rewrite (bind_raise _ _ _ _ _ Hload).
Qed.

Lemma load_to_loop w url s :
  is_ok (goto w url 30000) = true ->
  tolerated (wait_for_load_state w "networkidle" 15000) = true ->
  Loader.load w url s =
  Loader.scroll_loop w 10 0 0
    (add_log [EvPrint; EvGoto url 30000;
              EvWaitForLoadState "networkidle" 15000; EvSleep] s).
Proof.
  intros Hg Hw. unfold Loader.load.
  rewrite bind_call, bind_call, (is_ok_unit _ Hg),
    (bind_except_timeout_call _ _ _ _ Hw), bind_call, !add_log_add_log.
  reflexivity.
Qed.

(** X10. Only a timeout of a wait is forgiven. When the wait after the
    navigation raises any other error, [scrape] raises that error;
    neither the scroll loop nor the extraction is run, and the browser
    is shut down by the teardown. *)
Theorem other_wait_errors_are_fatal
    (w : World) (url : str) (max_items : Z) (headless : bool) (e : exn) :
  is_ok (start w) = true ->
  is_ok (launch w headless) = true ->
  is_ok (new_context w) = true ->
  is_ok (new_page w) = true ->
  is_ok (goto w url 30000) = true ->
  wait_for_load_state w "networkidle" 15000 = Raise e ->
  e <> PlaywrightTimeoutError ->
  scrape w url max_items headless =
  (Raise e,
   mkSession [EvStart; EvLaunch headless; EvNewContext; EvNewPage; EvPrint;
              EvGoto url 30000; EvWaitForLoadState "networkidle" 15000; EvStop]
     Closed 1).
Proof.
  intros Hstart Hlaunch Hctx Hpage Hgoto Hwait He.
  rewrite (scrape_when_load_raises w url max_items headless e
             (add_log [EvPrint; EvGoto url 30000;
                       EvWaitForLoadState "networkidle" 15000]
                (loading_session headless))); [reflexivity|done..|].
  unfold Loader.load.
  rewrite bind_call, bind_call, (is_ok_unit _ Hgoto), Hwait.
  apply bind_raise. by rewrite (except_timeout_call_error _ e _ He), !add_log_add_log.
Qed.

Lemma other_wait_errors_are_fatal_witness :
  scrape (with_first_wait sample_world (Raise (PlaywrightError "Target closed")))
    sample_url 200 true =
  (Raise (PlaywrightError "Target closed"),
   mkSession [EvStart; EvLaunch true; EvNewContext; EvNewPage; EvPrint;
              EvGoto sample_url 30000; EvWaitForLoadState "networkidle" 15000; EvStop]
     Closed 1).
Proof.
  apply (other_wait_errors_are_fatal
           (with_first_wait sample_world (Raise (PlaywrightError "Target closed"))));
    (reflexivity || discriminate).
Defined.

Lemma scroll_loop_fails w e : forall i n j prev s,
  (i < n)%nat ->
  scrolling_succeeds w j i = true ->
  changes_from w prev j i = true ->
  iteration_error w (j + i) = Some e ->
  exists evs, evs `prefix_of` iteration_events /\
    Loader.scroll_loop w n j prev s =
    (Raise e, add_log (concat (replicate i iteration_events) ++ evs) s).
Proof.
  induction i as [|i IH]; intros n j prev s Hn Hscroll Hch Herr;
    (destruct n as [|n]; [lia|]); cbn [Loader.scroll_loop].
  - rewrite Nat.add_0_r in Herr. unfold iteration_error in Herr.
    destruct (scroll_by w j) as [[]|e0] eqn:Hs.
    2: { injection Herr as ->. exists [EvScrollBy].
         split; [by eexists|]. by rewrite bind_call. }
    destruct (wait_for_load_state_in_loop w j "networkidle" 5000) as [[]|e1] eqn:Hw.
    + destruct (scroll_height w j) as [h|e2] eqn:Hh; [done|]. injection Herr as ->.
      exists iteration_events. split; [done|].
      rewrite bind_call, bind_call, bind_except_timeout_call, bind_call,
        !add_log_add_log by done.
      reflexivity.
    + destruct e1 as [|msg|].
      * destruct (scroll_height w j) as [h|e2] eqn:Hh; [done|]. injection Herr as ->.
        exists iteration_events. split; [done|].
        rewrite bind_call, bind_call, bind_except_timeout_call, bind_call,
          !add_log_add_log by done.
        reflexivity.
      * injection Herr as <-.
        exists [EvScrollBy; EvSleep; EvWaitForLoadState "networkidle" 5000].
        split; [by eexists|].
        rewrite bind_call, bind_call. apply bind_raise.
        by rewrite except_timeout_call_error, !add_log_add_log.
      * injection Herr as <-.
        exists [EvScrollBy; EvSleep; EvWaitForLoadState "networkidle" 5000].
        split; [by eexists|].
        rewrite bind_call, bind_call. apply bind_raise.
        by rewrite except_timeout_call_error, !add_log_add_log.
  - cbn [scrolling_succeeds forallb seq] in Hscroll.
    apply andb_prop in Hscroll as [Hi Hrest].
    apply andb_prop in Hi as [Hsb Hw].
    cbn [changes_from] in Hch.
    destruct (scroll_height w j) as [h|] eqn:Hh; [|done].
    apply andb_prop in Hch as [Hne Hch]. apply negb_true_iff in Hne.
    destruct (scroll_by w j) as [[]|] eqn:Hs; [|done].
    rewrite Nat.add_succ_r in Herr.
    destruct (IH n (S j) h
                (add_log [EvScrollBy; EvSleep;
                          EvWaitForLoadState "networkidle" 5000; EvScrollHeight] s))
      as (evs & Hpre & Hloop); [lia|exact Hrest|exact Hch|exact Herr|].
    exists evs. split; [done|].
    rewrite bind_call, bind_call, (bind_except_timeout_call _ _ _ _ Hw),
      bind_call, !add_log_add_log, Hne. cbn [app].
    rewrite Hloop, add_log_add_log. reflexivity.
Qed.

(** X11. An error inside the scroll loop other than a timeout of its
    wait ends the run. When the page has grown through [i < 10]
    iterations and the next one fails to scroll, to wait or to measure,
    [scrape] raises that error: the log holds the [i] full iterations
    and the part of the failing one, then the teardown; no extraction
    takes place. *)
Theorem error_inside_the_loop_is_fatal
    (w : World) (url : str) (max_items : Z) (headless : bool)
    (i : nat) (e : exn) :
  reaches_loop w url headless = true ->
  (i < 10)%nat ->
  scrolling_succeeds w 0 i = true ->
  changes_from w 0 0 i = true ->
  iteration_error w i = Some e ->
  exists evs, evs `prefix_of` iteration_events /\
    scrape w url max_items headless =
    (Raise e,
     mkSession (prologue_events url headless ++
                concat (replicate i iteration_events) ++ evs ++ [EvStop])
       Closed 1).
Proof.
  unfold reaches_loop. intros H Hi Hscroll Hch Herr.
  apply andb_prop in H as [H Hwait]. apply andb_prop in H as [H Hgoto].
  apply andb_prop in H as [H Hpage]. apply andb_prop in H as [H Hctx].
  apply andb_prop in H as [Hstart Hlaunch].
  destruct (scroll_loop_fails w e i 10 0 0
              (add_log [EvPrint; EvGoto url 30000;
                        EvWaitForLoadState "networkidle" 15000; EvSleep]
                 (loading_session headless)) Hi Hscroll Hch Herr)
    as (evs & Hpre & Hloop).
  exists evs. split; [done|].
  rewrite (scrape_when_load_raises w url max_items headless e _
             Hstart Hlaunch Hctx Hpage
             (eq_trans (load_to_loop w url _ Hgoto Hwait) Hloop)).
  unfold playwright_stop, add_log, loading_session, prologue_events. cbn.
  by rewrite <- !app_assoc.
Qed.

Lemma error_inside_the_loop_is_fatal_witness :
  exists evs, evs `prefix_of` iteration_events /\
    scrape (with_height_error sample_world 2 (PlaywrightError "Target closed"))
      sample_url 200 true =
    (Raise (PlaywrightError "Target closed"),
     mkSession (prologue_events sample_url true ++
                concat (replicate 2 iteration_events) ++ evs ++ [EvStop])
       Closed 1).
Proof.
  apply (error_inside_the_loop_is_fatal
           (with_height_error sample_world 2 (PlaywrightError "Target closed")));
    (reflexivity || lia).
Defined.

Lemma scrape_body_to_close w url headless unique :
  cooperative (with_close w (Ok tt)) url headless = true ->
  Extractor.extract_listings_from_page (query_selector_all w) = Ok unique ->
  exists s1,
    scrape_body w url headless (record_event EvStart new_session) =
    (_ ← browser_close w; mret unique) s1.
Proof.
  unfold cooperative. cbn [with_close start launch new_context new_page goto
    wait_for_load_state scroll_by wait_for_load_state_in_loop scroll_height close].
  intros H Hx.
  apply andb_prop in H as [H _]. apply andb_prop in H as [H Hloop].
  apply andb_prop in H as [H Hwait]. apply andb_prop in H as [H Hgoto].
  apply andb_prop in H as [H Hpage]. apply andb_prop in H as [H Hctx].
  apply andb_prop in H as [Hstart Hlaunch].
  unfold scrape_body.
  rewrite (bind_browser_launch _ _ _ _ (is_ok_unit _ Hlaunch)).
  rewrite bind_call, (is_ok_unit _ Hctx), bind_call, (is_ok_unit _ Hpage).
  match goal with
  | |- context [(Loader.load w url ≫= _) ?s0] =>
      destruct (load_returns w url s0) as [s1 Hl]; [done..|]
  end.
  rewrite (bind_ok _ _ _ _ _ Hl), bind_call, Hx. by eexists.
Qed.

(** X12. The extracted records are lost when the browser cannot be
    closed: if everything up to the extraction succeeds and
    [browser.close()] raises, [scrape] raises that error instead of
    returning the records, and [main] writes no file. *)
Theorem close_failure_discards_the_results
    (w : World) (args : Args) (unique : list Listing) (e : exn) :
  cooperative (with_close w (Ok tt)) (args_url args) (args_headless args) = true ->
  Extractor.extract_listings_from_page (query_selector_all w) = Ok unique ->
  close w = Raise e ->
  (scrape w (args_url args) (args_max_items args) (args_headless args)).1 = Raise e /\
  (main args w).1 = Raise e.
Proof.
  intros Hcoop Hx Hclose.
  assert (Hs : (scrape w (args_url args) (args_max_items args) (args_headless args)).1
               = Raise e).
  { destruct (scrape_body_to_close w _ _ unique Hcoop Hx) as [s1 Hb].
    unfold cooperative in Hcoop. cbn [with_close start] in Hcoop.
    repeat (apply andb_prop in Hcoop as [Hcoop _]).
    unfold scrape, scrape_session, with_sync_playwright.
    rewrite (is_ok_unit _ Hcoop), Hb.
    unfold mbind, M_bind, browser_close. by rewrite Hclose. }
  split; [exact Hs|]. unfold main.
  destruct (scrape w _ _ _) as [[r|e'] s]; cbn in Hs |- *; congruence.
Qed.

Lemma close_failure_discards_the_results_witness :
  (scrape (with_close sample_world (Raise (PlaywrightError "Target closed")))
     (args_url default_args) (args_max_items default_args)
     (args_headless default_args)).1 = Raise (PlaywrightError "Target closed") /\
  (main default_args
     (with_close sample_world (Raise (PlaywrightError "Target closed")))).1
  = Raise (PlaywrightError "Target closed").
Proof.
  apply (close_failure_discards_the_results
           (with_close sample_world (Raise (PlaywrightError "Target closed")))
           default_args
           [ mkListing (Some (lit "Car Cover")) (lit "/item/123")
               (Some ([rupee] ++ lit "500")) None;
             mkListing (Some (lit "Bike Cover")) (lit "/item/456") None None ]).
  - reflexivity.
  - vm_compute. reflexivity.
  - reflexivity.
Defined.

(** X13. When the browser cannot be launched, [scrape] raises that
    error after the teardown of the [with] block; no page was opened
    and no browser is there to be shut down. *)
Theorem launch_failure_releases_nothing
    (w : World) (url : str) (max_items : Z) (headless : bool) (e : exn) :
  start w = Ok tt ->
  launch w headless = Raise e ->
  scrape w url max_items headless =
  (Raise e, mkSession [EvStart; EvLaunch headless; EvStop] NotLaunched 0).
Proof.
  intros Hstart Hlaunch.
  unfold scrape, scrape_session, with_sync_playwright, scrape_body.
  rewrite Hstart. unfold mbind at 1, M_bind at 1, browser_launch.
  by rewrite Hlaunch.
Qed.

Lemma launch_failure_releases_nothing_witness :
  scrape (with_launch sample_world (Raise (PlaywrightError "Executable missing")))
    sample_url 200 false =
  (Raise (PlaywrightError "Executable missing"),
   mkSession [EvStart; EvLaunch false; EvStop] NotLaunched 0).
Proof.
  apply (launch_failure_releases_nothing
           (with_launch sample_world (Raise (PlaywrightError "Executable missing"))));
    reflexivity.
Defined.

(** ** What [scrape] returns *)

Lemma bind_inv_ok {A B} (m : M A) (f : A -> M B) s b s' :
  (m ≫= f) s = (Ok b, s') ->
  exists a s1, m s = (Ok a, s1) /\ f a s1 = (Ok b, s').
Proof.
  unfold mbind, M_bind. destruct (m s) as [[a|e] s1]; [|done]. by exists a, s1.
Qed.

Lemma scrape_ok_inv w url max_items headless results :
  (scrape w url max_items headless).1 = Ok results ->
  exists unique,
    Extractor.extract_listings_from_page (query_selector_all w) = Ok unique /\
    results = cap unique max_items.
Proof.
  unfold scrape.
  destruct (scrape_session w url headless new_session) as [[r0|e] s] eqn:Hs;
    cbn [fst]; [|done].
  intros [= <-]. exists r0. split; [|done].
  unfold scrape_session, with_sync_playwright in Hs.
  destruct (start w) as [[]|]; [|done].
  destruct (scrape_body w url headless _) as [r1 s1] eqn:Hb.
  injection Hs as -> _. unfold scrape_body in Hb.
  apply bind_inv_ok in Hb as (? & ? & _ & Hb).
  apply bind_inv_ok in Hb as (? & ? & _ & Hb).
  apply bind_inv_ok in Hb as (? & ? & _ & Hb).
  apply bind_inv_ok in Hb as (? & ? & _ & Hb).
  apply bind_inv_ok in Hb as (results & ? & Hx & Hb).
  apply bind_inv_ok in Hb as (? & ? & _ & Hb).
  unfold call in Hx. injection Hx as Hx _.
  unfold mret, M_ret in Hb. injection Hb as -> _. exact Hx.
Qed.

Lemma output_href_nonempty qsa out r :
  Extractor.extract_listings_from_page qsa = Ok out -> r ∈ out -> href r <> [].
Proof.
  intros Hx Hr. destruct (extract_inv qsa out Hx) as (anchors & _ & _ & ->).
  apply dedup_subset, candidates_spec in Hr as (a & _ & Hr).
  apply records_of_spec in Hr as (Hq & Hh & _).
  unfold qualifies in Hq. apply andb_prop in Hq as [Ht _].
  rewrite <- Hh in Ht. by destruct (href r).
Qed.

Lemma cap_prefix unique max_items : cap unique max_items `prefix_of` unique.
Proof.
  unfold cap, slice_to. destruct (_ >? _); [apply prefix_take|done].
Qed.

(** X14. Whatever [max_items] is, negative values included, what
    [scrape] returns is an initial part of the extractor's output: its
    records have pairwise distinct hrefs, none of them empty. *)
Theorem scrape_returns_a_prefix_without_duplicates
    (w : World) (url : str) (max_items : Z) (headless : bool)
    (results : list Listing) :
  (scrape w url max_items headless).1 = Ok results ->
  NoDup (href <$> results) /\
  (forall r, r ∈ results -> href r <> []) /\
  exists unique,
    Extractor.extract_listings_from_page (query_selector_all w) = Ok unique /\
    results `prefix_of` unique.
Proof.
  intros Hs. destruct (scrape_ok_inv _ _ _ _ _ Hs) as (unique & Hx & ->).
  assert (Hpre := cap_prefix unique max_items).
  destruct (extract_inv _ _ Hx) as (anchors & _ & _ & Hu).
  split; [|split].
  - assert (Hnd : NoDup (href <$> unique)) by (rewrite Hu; apply dedup_NoDup).
    destruct Hpre as [k Hk]. rewrite Hk, fmap_app in Hnd.
    by apply NoDup_app in Hnd as [? _].
  - intros r Hr. apply (output_href_nonempty _ unique r Hx).
    destruct Hpre as [k Hk]. rewrite Hk. apply elem_of_app. by left.
  - by exists unique.
Qed.

Lemma scrape_returns_a_prefix_without_duplicates_witness :
  let results := [ mkListing (Some (lit "Car Cover")) (lit "/item/123")
                     (Some ([rupee] ++ lit "500")) None ] in
  NoDup (href <$> results) /\
  (forall r, r ∈ results -> href r <> []) /\
  exists unique,
    Extractor.extract_listings_from_page (query_selector_all sample_world) = Ok unique /\
    results `prefix_of` unique.
Proof.
  apply (scrape_returns_a_prefix_without_duplicates sample_world sample_url (-1) true).
  vm_compute. reflexivity.
Defined.

(** ** The layout of the JSON file *)

Lemma line_feeds_app a b : line_feeds (a ++ b) = (line_feeds a + line_feeds b)%nat.
Proof. unfold line_feeds. by rewrite filter_app, length_app. Qed.

Lemma hex_digit_printable n : (32 <= Json.hex_digit n)%N.
Proof. unfold Json.hex_digit. destruct (n <? 10)%N; lia. Qed.

Lemma escape_printable c : Forall (fun x => (32 <= x)%N) (Json.escape c).
Proof.
  unfold Json.escape.
  repeat match goal with
         | |- context [(c =? ?n)%N] => destruct (N.eqb_spec c n)
         end; try (repeat constructor; lia).
  destruct (N.ltb_spec c 32);
    repeat constructor; try lia; apply hex_digit_printable.
Qed.

Lemma json_field_printable v : Forall (fun x => (32 <= x)%N) (json_field v).
Proof.
  destruct v as [s|]; cbn [json_field]; [|repeat constructor; cbn; lia].
  apply Forall_app. split; [repeat constructor; lia|].
  apply Forall_app. split; [|repeat constructor; lia].
  induction s as [|c s IH]; [constructor|].
  cbn [map concat]. apply Forall_app. split; [apply escape_printable|exact IH].
Qed.

Lemma line_feeds_printable s :
  Forall (fun x => (32 <= x)%N) s -> line_feeds s = 0%nat.
Proof.
  unfold line_feeds. induction 1 as [|c s Hc _ IH]; [done|].
  rewrite filter_cons, decide_False by lia. exact IH.
Qed.

Lemma line_feeds_json_object r : line_feeds (json_object r) = 5%nat.
Proof.
  unfold json_object. rewrite !line_feeds_app.
  rewrite !(line_feeds_printable _ (json_field_printable _)). reflexivity.
Qed.

Lemma line_feeds_join_objects r rs :
  line_feeds (join (lit "," ++ [10%N] ++ lit "  ") (map json_object (r :: rs))) =
  (6 * length rs + 5)%nat.
Proof.
  revert r. induction rs as [|r' rs IH]; intros r.
  - cbn [map join length]. by rewrite line_feeds_json_object.
  - change (join (lit "," ++ [10%N] ++ lit "  ") (map json_object (r :: r' :: rs)))
      with (json_object r ++ (lit "," ++ [10%N] ++ lit "  ") ++
            join (lit "," ++ [10%N] ++ lit "  ") (map json_object (r' :: rs))).
    rewrite !line_feeds_app, line_feeds_json_object, IH. cbn [length].
    change (line_feeds (lit ",")) with 0%nat.
    change (line_feeds [10%N]) with 1%nat.
    change (line_feeds (lit "  ")) with 0%nat. lia.
Qed.

Lemma printable_or_lf_app (a b : str) :
  Forall (fun x => (32 <= x)%N \/ x = 10%N) a ->
  Forall (fun x => (32 <= x)%N \/ x = 10%N) b ->
  Forall (fun x => (32 <= x)%N \/ x = 10%N) (a ++ b).
Proof. intros. by apply Forall_app. Qed.

Lemma printable_weaken (s : str) :
  Forall (fun x => (32 <= x)%N) s ->
  Forall (fun x => (32 <= x)%N \/ x = 10%N) s.
Proof. intros H. eapply Forall_impl; [exact H|]. intros x Hx. by left. Qed.

Lemma json_object_layout r :
  Forall (fun x => (32 <= x)%N \/ x = 10%N) (json_object r).
Proof.
  unfold json_object.
  repeat (apply printable_or_lf_app;
          [first [ apply printable_weaken, json_field_printable
                 | apply (bool_decide_unpack _); by vm_compute ]|]).
  apply (bool_decide_unpack _); by vm_compute.
Qed.

Lemma join_objects_layout rs :
  Forall (fun x => (32 <= x)%N \/ x = 10%N)
    (join (lit "," ++ [10%N] ++ lit "  ") (map json_object rs)).
Proof.
  induction rs as [|r rs IH]; [constructor|].
  destruct rs as [|r' rs]; [apply json_object_layout|].
  change (join (lit "," ++ [10%N] ++ lit "  ") (map json_object (r :: r' :: rs)))
    with (json_object r ++ (lit "," ++ [10%N] ++ lit "  ") ++
          join (lit "," ++ [10%N] ++ lit "  ") (map json_object (r' :: rs))).
  apply printable_or_lf_app; [apply json_object_layout|].
  apply printable_or_lf_app; [|exact IH].
  apply (bool_decide_unpack _); by vm_compute.
Qed.

(** X15. No field can disturb the layout of the JSON file: the only
    control character in it is the line feed of the layout, and for
    [N >= 1] records the text has exactly [6 N + 1] line feeds, that
    is, one line for each bracket, brace and member. *)
Theorem json_layout_is_fixed (results : list Listing) (outpath : Path) :
  lower (suffix outpath) = lit ".json" ->
  results <> [] ->
  line_feeds (save_results results outpath) = (6 * length results + 1)%nat /\
  Forall (fun x => (32 <= x)%N \/ x = 10%N) (save_results results outpath).
Proof.
  intros Hj Hne. rewrite (save_results_json_text results outpath Hj).
  destruct results as [|r rs]; [done|]. unfold json_text. split.
  - rewrite !line_feeds_app, line_feeds_join_objects. cbn [length].
    change (line_feeds (lit "[")) with 0%nat.
    change (line_feeds [10%N]) with 1%nat.
    change (line_feeds (lit "  ")) with 0%nat.
    change (line_feeds (lit "]")) with 0%nat. lia.
  - repeat (apply printable_or_lf_app;
            [first [ apply join_objects_layout
                   | apply (bool_decide_unpack _); by vm_compute ]|]).
    apply (bool_decide_unpack _); by vm_compute.
Qed.

Lemma json_layout_is_fixed_witness :
  line_feeds (save_results sample_results (mkPath (lit ".json"))) =
  (6 * length sample_results + 1)%nat /\
  Forall (fun x => (32 <= x)%N \/ x = 10%N)
    (save_results sample_results (mkPath (lit ".json"))).
Proof.
  apply (json_layout_is_fixed sample_results (mkPath (lit ".json")));
    [reflexivity|discriminate].
Defined.

(** ** Missing and empty fields *)

Lemma csv_line_fill_blanks r : csv_line (fill_blanks r) = csv_line r.
Proof. unfold csv_line, fill_blanks. cbn [title price location href csv_cell]. done. Qed.

(** X16. The CSV file cannot tell a missing field from an empty one:
    replacing every missing title, price and location by the empty
    string leaves the written text unchanged. *)
Theorem csv_conflates_missing_and_empty (results : list Listing) (outpath : Path) :
  lower (suffix outpath) <> lit ".json" ->
  save_results (fill_blanks <$> results) outpath = save_results results outpath.
Proof.
  intros Hne. rewrite !save_results_csv_text by done. unfold csv_text.
  do 3 f_equal. rewrite <- list_fmap_compose. apply list_fmap_ext.
  intros i r _. apply csv_line_fill_blanks.
Qed.

Lemma csv_conflates_missing_and_empty_witness :
  save_results (fill_blanks <$> sample_results) (mkPath (lit ".csv")) =
  save_results sample_results (mkPath (lit ".csv")).
Proof.
  apply (csv_conflates_missing_and_empty sample_results (mkPath (lit ".csv"))).
  discriminate.
Defined.

Lemma json_field_missing s : json_field None <> json_field (Some s).
Proof. cbn. discriminate. Qed.

Lemma json_field_missing_app s l l' :
  json_field None ++ l <> json_field (Some s) ++ l'.
Proof. cbn. discriminate. Qed.

(** X17. The JSON file does tell them apart: a record with a missing
    title, price or location is written differently from the same
    record with the empty string in its place. *)
Theorem json_keeps_missing_apart_from_empty (r : Listing) (outpath : Path) :
  lower (suffix outpath) = lit ".json" ->
  title r = None \/ price r = None \/ location r = None ->
  save_results [r] outpath <> save_results [fill_blanks r] outpath.
Proof.
  intros Hj Hmiss. rewrite !save_results_json_text by done.
  unfold json_text. cbn [map join]. intros Heq.
  apply app_inv_head in Heq. apply app_inv_head in Heq. apply app_inv_head in Heq.
  apply app_inv_tail in Heq.
  unfold json_object, fill_blanks in Heq. cbn [title href price location] in Heq.
  repeat (apply app_inv_head in Heq).
  destruct (title r) as [t|]; [|by apply json_field_missing_app in Heq].
  cbn [csv_cell] in Heq. repeat (apply app_inv_head in Heq).
  destruct (price r) as [p|]; [|by apply json_field_missing_app in Heq].
  cbn [csv_cell] in Heq. repeat (apply app_inv_head in Heq).
  destruct (location r) as [l|]; [|by apply json_field_missing_app in Heq].
  by destruct Hmiss as [?|[?|?]].
Qed.

Lemma json_keeps_missing_apart_from_empty_witness :
  save_results [mkListing None (lit "/item/2") None None] (mkPath (lit ".json")) <>
  save_results [fill_blanks (mkListing None (lit "/item/2") None None)]
    (mkPath (lit ".json")).
Proof.
  apply (json_keeps_missing_apart_from_empty
           (mkListing None (lit "/item/2") None None) (mkPath (lit ".json")));
    [reflexivity|by left].
Defined.

(** ** The choice of the format *)

Lemma lower_char_head c l x l' :
  lower_char c ++ l = x :: l' ->
  x <> 105%N -> x <> 107%N -> (x < 128)%N ->
  l = l' /\ (c = x \/ ((65 <= c)%N /\ (c <= 90)%N /\ (c + 32)%N = x)).
Proof.
  unfold lower_char.
  destruct ((65 <=? c)%N && (c <=? 90)%N) eqn:Hup.
  - apply andb_prop in Hup as [H1 H2]. apply N.leb_le in H1, H2.
    cbn. intros [= <- <-] _ _ _. split; [done|]. right. lia.
  - destruct (N.eqb_spec c 8490); [cbn; intros [= <- <-]; done|].
    destruct (N.eqb_spec c 304); [cbn; intros [= <- _]; done|].
    cbn. intros [= <- <-] _ _ _. split; [done|]. by left.
Qed.

Lemma lower_nil_inv s : lower s = [] -> s = [].
Proof.
  destruct s as [|c s]; [done|]. unfold lower. cbn [map concat].
  unfold lower_char.
  destruct ((65 <=? c)%N && (c <=? 90)%N); [done|].
  destruct (c =? 8490)%N; [done|]. by destruct (c =? 304)%N.
Qed.

Lemma lower_json_spelling s : lower s = lit ".json" <-> is_json_spelling s.
Proof.
  split.
  - intros H. change (lit ".json") with [46; 106; 115; 111; 110]%N in H.
    destruct s as [|c1 s]; [done|]. unfold lower in H. cbn [map concat] in H.
    apply lower_char_head in H as [H H1]; [|lia..].
    destruct s as [|c2 s]; [done|]. cbn [map concat] in H.
    apply lower_char_head in H as [H H2]; [|lia..].
    destruct s as [|c3 s]; [done|]. cbn [map concat] in H.
    apply lower_char_head in H as [H H3]; [|lia..].
    destruct s as [|c4 s]; [done|]. cbn [map concat] in H.
    apply lower_char_head in H as [H H4]; [|lia..].
    destruct s as [|c5 s]; [done|]. cbn [map concat] in H.
    apply lower_char_head in H as [H H5]; [|lia..].
    apply (lower_nil_inv s) in H as ->.
    exists c2, c3, c4, c5.
    assert (c1 = 46%N) as -> by lia.
    split; [done|]. repeat split; lia.
  - intros (j & s' & o & n & -> & Hj & Hs & Ho & Hn).
    destruct Hj as [-> | ->], Hs as [-> | ->], Ho as [-> | ->], Hn as [-> | ->];
      reflexivity.
Qed.

Lemma json_text_is_not_csv_text results results' :
  json_text results <> csv_text results'.
Proof. unfold json_text, csv_text. by destruct results. Qed.

(** X18. [save_results] writes JSON exactly for the sixteen spellings
    of the extension [.json] in capital and small letters, and CSV for
    every other suffix of the path. *)
Theorem json_is_chosen_by_sixteen_spellings (results : list Listing) (outpath : Path) :
  (save_results results outpath = json_text results <->
   is_json_spelling (suffix outpath)) /\
  (save_results results outpath = csv_text results <->
   ~ is_json_spelling (suffix outpath)).
Proof.
  rewrite <- lower_json_spelling.
  destruct (decide (lower (suffix outpath) = lit ".json")) as [Hj|Hc].
  - rewrite (save_results_json_text _ _ Hj). split; [done|].
    split; [|done]. intros H. by apply json_text_is_not_csv_text in H.
  - rewrite (save_results_csv_text _ _ Hc). split; [|done].
    split; [|done]. intros H. symmetry in H. by apply json_text_is_not_csv_text in H.
Qed.

(** ** The whole program *)

(** X19. [main] writes what [scrape] returns. When every step of the
    run succeeds and [max_items] is not negative, the text written is
    that of the first [max_items] records of the deduplicated
    candidates, in the format chosen by the path. *)
Theorem main_writes_the_capped_records
    (args : Args) (w : World) (anchors : list ElementHandle) :
  cooperative w (args_url args) (args_headless args) = true ->
  query_selector_all w "a[href]"%string = Ok anchors ->
  forallb readable anchors = true ->
  0 <= args_max_items args ->
  (main args w).1 =
  Ok (save_results
        (take (Z.to_nat (args_max_items args))
           (Extractor.dedup (candidates anchors)))
        (args_output args)).
Proof.
  intros Hcoop Hq Hread Hn.
  assert (Hx := extract_readable _ _ Hq Hread).
  assert (Hs := scrape_cooperative w (args_url args) (args_max_items args)
                  (args_headless args) _ Hcoop Hx).
  unfold main. destruct (scrape w _ _ _) as [[r|e] s]; cbn [fst] in Hs |- *;
    [|done].
  injection Hs as ->. by destruct (cap_nonneg (Extractor.dedup (candidates anchors))
                                     (args_max_items args) Hn) as [-> _].
Qed.

Lemma main_writes_the_capped_records_witness :
  (main default_args sample_world).1 =
  Ok (save_results
        (take (Z.to_nat (args_max_items default_args))
           (Extractor.dedup (candidates sample_anchors)))
        (args_output default_args)).
Proof.
  apply (main_writes_the_capped_records default_args sample_world sample_anchors).
  - reflexivity.
  - reflexivity.
  - reflexivity.
  - cbn. lia.
Defined.
